(** * Video upload validation, the in-memory video table and the
      storage reconciler ([getVideos]) of the transcription app.

    The development follows the TypeScript sources:
    - [validateFile] of the upload component,
    - the server actions of [app/actions/videos.ts]
      ([saveVideoMetadata], [updateVideoStatus], [getVideos],
      [getVideoById], [deleteVideo]) together with
      [loadVideoDataFromStorage],
    - the [Video] / [Transcription] types of [lib/types.ts].

    JavaScript objects are mutable and shared: the same [Video] object can
    sit in the module-level table [videos], in the per-call index
    [metadataByUrl] and in the per-call [videoMap].  Objects therefore
    live in a heap and the maps hold references.

    The storage service is data: the documents and files of the two
    namespaces with the outcome of each fetch, and whether each listing
    answers.  [Date.now()] is a sequence of readings and date parsing is a
    parameter. *)

From Stdlib Require Import ZArith QArith String Ascii List Lia.
From Stdlib Require Import Sorted Permutation DecimalString.
From stdpp Require Import base option list.

Open Scope string_scope.
Open Scope Z_scope.

(** ** JavaScript string primitives used by the sources *)

Module JsString.

(** [s.split(c)[0]]: the part of [s] before the first [c], all of [s]
    when [c] does not occur. *)
Fixpoint split_head (c : ascii) (s : string) : string :=
  match s with
  | EmptyString => EmptyString
  | String a r => if Ascii.eqb a c then EmptyString
                  else String a (split_head c r)
  end.

(** [s.indexOf(c)], [-1] when [c] does not occur. *)
Fixpoint indexOf (c : ascii) (s : string) : Z :=
  match s with
  | EmptyString => -1
  | String a r =>
      if Ascii.eqb a c then 0
      else let i := indexOf c r in if i <? 0 then -1 else i + 1
  end.

Fixpoint drop (n : nat) (s : string) : string :=
  match n, s with
  | O, _ => s
  | S _, EmptyString => EmptyString
  | S n', String _ r => drop n' r
  end.

(** [s.substring(i)]: a negative start is clamped to [0]. *)
Definition substring_from (i : Z) (s : string) : string :=
  drop (Z.to_nat i) s.

(** Truthiness of a string: only the empty string is falsy. *)
Definition truthy (s : string) : bool :=
  match s with EmptyString => false | _ => true end.

(** [a || b] on strings. *)
Definition or_else (a b : string) : string :=
  if truthy a then a else b.

(** [n.toString()] for an integral number. *)
Definition of_number (n : Z) : string :=
  NilZero.string_of_int (Z.to_int n).

(** [xs.includes(s)] on an array of strings. *)
Definition includes (xs : list string) (s : string) : bool :=
  existsb (String.eqb s) xs.

End JsString.

(** ** Data model ([lib/types.ts]) *)

Inductive Status := Uploading | Processing | Completed | Error.

Inductive TranscriptStatus := TQueued | TProcessing | TCompleted | TError.

Record Word := mkWord {
  w_text : string;
  w_start : Z;
  w_end : Z;
  w_confidence : Q
}.

Record Utterance := mkUtterance {
  u_speaker : string;
  u_text : string;
  u_start : Z;
  u_end : Z;
  u_confidence : Q;
  u_words : list Word
}.

Record Transcription := mkTranscription {
  t_id : string;
  t_text : string;
  t_status : TranscriptStatus;
  t_words : option (list Word);
  t_utterances : option (list Utterance);
  t_completedAt : option string
}.

Record Video := mkVideo {
  v_id : string;
  v_name : string;
  v_url : string;
  v_size : Z;
  v_uploadedAt : string;
  v_transcription : option Transcription;
  v_status : Status
}.

Definition set_id (x : string) (v : Video) : Video :=
  mkVideo x (v_name v) (v_url v) (v_size v) (v_uploadedAt v)
          (v_transcription v) (v_status v).

Definition set_url (x : string) (v : Video) : Video :=
  mkVideo (v_id v) (v_name v) x (v_size v) (v_uploadedAt v)
          (v_transcription v) (v_status v).

Definition set_size (x : Z) (v : Video) : Video :=
  mkVideo (v_id v) (v_name v) (v_url v) x (v_uploadedAt v)
          (v_transcription v) (v_status v).

Definition set_status (x : Status) (v : Video) : Video :=
  mkVideo (v_id v) (v_name v) (v_url v) (v_size v) (v_uploadedAt v)
          (v_transcription v) x.

Definition set_transcription (x : option Transcription) (v : Video) : Video :=
  mkVideo (v_id v) (v_name v) (v_url v) (v_size v) (v_uploadedAt v)
          x (v_status v).

(** [video.transcription?.text] used as a condition. *)
Definition has_text (v : Video) : bool :=
  match v_transcription v with
  | Some t => JsString.truthy (t_text t)
  | None => false
  end.

(** ** Upload validation ([validateFile]) *)

Module Upload.

Record File := mkFile {
  f_name : string;
  f_type : string;
  f_size : Z
}.

Definition maxSize : Z := 250 * 1024 * 1024.

Definition allowedTypes : list string :=
  ["video/mp4"; "video/webm"; "video/ogg"; "video/quicktime"].

Definition type_rejection : string :=
  "Please upload a valid video file (MP4, WebM, OGG, or MOV)".

Definition size_rejection : string :=
  "File size must be less than 250MB".

(** [null] is [None]. *)
Definition validateFile (file : File) : option string :=
  if negb (JsString.includes allowedTypes (f_type file)) then
    Some type_rejection
  else if f_size file >? maxSize then
    Some size_rejection
  else None.

End Upload.

(** ** The object heap and JavaScript [Map<string, Video>] *)

Abbreviation loc := nat.

Abbreviation Heap := (list Video).

(** A fresh object: its reference is the next free index. *)
Definition alloc (v : Video) (h : Heap) : loc * Heap :=
  (List.length h, (h ++ [v])%list).

(** A field assignment through a reference. *)
Definition modify (f : Video -> Video) (l : loc) (h : Heap) : Heap :=
  alter f l h.

Definition deref (h : Heap) (l : loc) : option Video := h !! l.

Definition text_at (h : Heap) (l : loc) : bool :=
  match deref h l with
  | Some v => has_text v
  | None => false
  end.

(** A [Map] keeps its keys in insertion order; [set] on a present key
    replaces the value where it stands. *)
Module JsMap.

Definition t := list (string * loc).

Definition empty : t := [].

Fixpoint get (k : string) (m : t) : option loc :=
  match m with
  | [] => None
  | (k', x) :: r => if String.eqb k' k then Some x else get k r
  end.

Definition has (k : string) (m : t) : bool :=
  match get k m with Some _ => true | None => false end.

Fixpoint set (k : string) (x : loc) (m : t) : t :=
  match m with
  | [] => [(k, x)]
  | (k', x') :: r =>
      if String.eqb k' k then (k, x) :: r else (k', x') :: set k x r
  end.

(** [m.delete(k)]: the new map and whether [k] was present. *)
Fixpoint delete (k : string) (m : t) : t * bool :=
  match m with
  | [] => ([], false)
  | (k', x') :: r =>
      if String.eqb k' k then (r, true)
      else let '(r', b) := delete k r in ((k', x') :: r', b)
  end.

Definition keys (m : t) : list string := map fst m.

Definition values (m : t) : list loc := map snd m.

End JsMap.

(** [Array.from(m.values())] read at the time the array is returned. *)
Definition snapshot (h : Heap) (m : JsMap.t) : list Video :=
  omap (deref h) (JsMap.values m).

(** The module state of [videos.ts]: the heap and the table [videos]. *)
Record State := mkState {
  heap : Heap;
  videos : JsMap.t
}.

(** The object every server action returns. *)
Record Result (A : Type) := mkResult {
  success : bool;
  error : option string;
  data : option A
}.
Arguments mkResult {A}.
Arguments success {A}.
Arguments error {A}.
Arguments data {A}.

(** ** The storage service as the reconciler sees it *)

(** A document of the [metadata/] namespace; [None] when taking its
    download URL, fetching it or parsing it throws. *)
Record MetaItem := mkMetaItem {
  mi_name : string;
  mi_json : option Video
}.

Record FullMetadata := mkFullMetadata {
  md_size : Z;
  md_timeCreated : string
}.

(** An object of the [videos/] namespace with the outcome of
    [getDownloadURL] and of [getMetadata] ([None]: the call throws). *)
Record VideoItem := mkVideoItem {
  vi_name : string;
  vi_downloadURL : option string;
  vi_metadata : option FullMetadata
}.

Record Storage := mkStorage {
  st_metadata : list MetaItem;
  st_videos : list VideoItem;
  st_metadata_listable : bool;
  st_videos_listable : bool
}.

(** [listAll(ref)]: [None] when the call throws. *)
Definition listAll_metadata (s : Storage) : option (list MetaItem) :=
  if st_metadata_listable s then Some (st_metadata s) else None.

Definition listAll_videos (s : Storage) : option (list VideoItem) :=
  if st_videos_listable s then Some (st_videos s) else None.

Inductive Thrown := ThrownError (message : string) | ThrownOther.

(** [getStorage(app)] and [ref(storage, ...)] either throw or give the
    storage handle. *)
Inductive Firebase := Unavailable (e : Thrown) | Available (s : Storage).

(** [loadVideoDataFromStorage]: the document [metadata/{videoId}.json],
    [null] on any error. *)
Definition loadVideoDataFromStorage (s : Storage) (videoId : string)
  : option Video :=
  match find (fun mi => String.eqb (mi_name mi) (videoId ++ ".json"))
             (st_metadata s) with
  | Some mi => mi_json mi
  | None => None
  end.

(** ** [Array.prototype.sort] with a comparator *)

(** The sort is stable: [x], which stood before every element of [l], goes
    in front of the first element it does not have to follow.  When the
    comparator orders the elements consistently, every stable sort returns
    this list. *)
Fixpoint sort_insert {A : Type} (cmp : A -> A -> Z) (x : A) (l : list A)
  : list A :=
  match l with
  | [] => [x]
  | y :: r => if cmp x y <=? 0 then x :: y :: r
              else y :: sort_insert cmp x r
  end.

Definition js_sort {A : Type} (cmp : A -> A -> Z) (l : list A) : list A :=
  foldr (sort_insert cmp) [] l.

(** ** The server actions of [videos.ts] *)

Section Actions.

(** [new Date(s).getTime()]; [None] is [NaN] (an invalid date). *)
Variable Date_getTime : string -> option Z.

(** The comparator [(a, b) => new Date(b.uploadedAt).getTime() -
    new Date(a.uploadedAt).getTime()]; a [NaN] result counts as [0]. *)
Definition byUploadedAtDesc (a b : Video) : Z :=
  match Date_getTime (v_uploadedAt b), Date_getTime (v_uploadedAt a) with
  | Some tb, Some ta => tb - ta
  | _, _ => 0
  end.

Definition sortVideos (vs : list Video) : list Video :=
  js_sort byUploadedAtDesc vs.

Definition not_found {A : Type} : Result A :=
  mkResult false (Some "Video not found") None.

(** [saveVideoMetadata]; [now] is [Date.now()]. *)
Definition saveVideoMetadata (now : Z) (video : Video) (st : State)
  : Result Video * State :=
  let id := JsString.of_number now in
  let newVideo := set_id id video in
  let '(l, h) := alloc newVideo (heap st) in
  (mkResult true None (Some newVideo),
   mkState h (JsMap.set id l (videos st))).

Definition updateVideoStatus (videoId : string) (status : Status)
    (transcription : option Transcription) (st : State)
  : Result Video * State :=
  match JsMap.get videoId (videos st) with
  | None => (not_found, st)
  | Some video =>
      let h1 := modify (set_status status) video (heap st) in
      let h2 := match transcription with
                | Some _ => modify (set_transcription transcription) video h1
                | None => h1
                end in
      (mkResult true None (deref h2 video),
       mkState h2 (JsMap.set videoId video (videos st)))
  end.

Definition getVideoById (videoId : string) (st : State) : Result Video :=
  match JsMap.get videoId (videos st) with
  | None => not_found
  | Some video => mkResult true None (deref (heap st) video)
  end.

Definition deleteVideo (videoId : string) (st : State)
  : Result Video * State :=
  let '(m, deleted) := JsMap.delete videoId (videos st) in
  (mkResult deleted (if deleted then None else Some "Video not found") None,
   mkState (heap st) m).

(** *** [getVideos]: the metadata index *)

(** One turn of the loop over [metadataList.items]; a document that
    cannot be loaded is logged and skipped. *)
Definition indexMetadata (acc : Heap * JsMap.t) (metaItem : MetaItem)
  : Heap * JsMap.t :=
  match mi_json metaItem with
  | Some videoData =>
      let cleanUrl := JsString.split_head "?" (v_url videoData) in
      let '(l, h) := alloc videoData (fst acc) in
      (h, JsMap.set cleanUrl l (snd acc))
  | None => acc
  end.

(** *** [getVideos]: one video file *)

(** The local [video] variable with the heap and the table [videos]. *)
Record Resolution := mkResolution {
  r_video : option loc;
  r_heap : Heap;
  r_videos : JsMap.t
}.

Definition deriveId (now : Z) (fileName : string) : string :=
  JsString.or_else (JsString.split_head "_" fileName)
                   (JsString.of_number now).

Definition deriveName (fileName : string) : string :=
  JsString.or_else
    (JsString.substring_from (JsString.indexOf "_" fileName + 1) fileName)
    fileName.

(** Priority 1: metadata indexed under the file's URL. *)
Definition priority1 (metadataByUrl : JsMap.t) (id url cleanUrl : string)
    (metadata : FullMetadata) (r : Resolution) : Resolution :=
  match JsMap.get cleanUrl metadataByUrl with
  | Some video =>
      let h := modify (fun v => set_size (md_size metadata)
                                  (set_url url (set_id id v)))
                      video (r_heap r) in
      mkResolution (Some video) h (JsMap.set id video (r_videos r))
  | None => r
  end.

(** Priority 2: the metadata file named after the id. *)
Definition priority2 (s : Storage) (id url : string)
    (metadata : FullMetadata) (r : Resolution) : Resolution :=
  match r_video r with
  | Some _ => r
  | None =>
      match loadVideoDataFromStorage s id with
      | Some savedVideoData =>
          let '(video, h0) := alloc savedVideoData (r_heap r) in
          let h := modify (fun v => set_size (md_size metadata)
                                      (set_url url v)) video h0 in
          mkResolution (Some video) h (JsMap.set id video (r_videos r))
      | None => r
      end
  end.

(** Priority 3: the in-memory table. *)
Definition priority3 (id url : string) (r : Resolution) : Resolution :=
  match r_video r with
  | Some _ => r
  | None =>
      match JsMap.get id (r_videos r) with
      | Some video =>
          mkResolution (Some video) (modify (set_url url) video (r_heap r))
                       (r_videos r)
      | None => r
      end
  end.

(** Priority 4: a basic video object; [video] is set from here on. *)
Definition priority4 (id fileName url : string) (metadata : FullMetadata)
    (r : Resolution) : loc * Heap * JsMap.t :=
  match r_video r with
  | Some video => (video, r_heap r, r_videos r)
  | None =>
      let '(video, h) :=
        alloc (mkVideo id (deriveName fileName) url (md_size metadata)
                       (md_timeCreated metadata) None Completed)
              (r_heap r) in
      (video, h, JsMap.set id video (r_videos r))
  end.

Definition resolve (s : Storage) (metadataByUrl : JsMap.t)
    (id fileName url cleanUrl : string) (metadata : FullMetadata)
    (h : Heap) (table : JsMap.t) : loc * Heap * JsMap.t :=
  priority4 id fileName url metadata
    (priority3 id url
      (priority2 s id url metadata
        (priority1 metadataByUrl id url cleanUrl metadata
          (mkResolution None h table)))).

(** Add to [videoMap], preferring videos with transcriptions. *)
Definition addToMap (h : Heap) (id : string) (video : loc)
    (videoMap : JsMap.t) : JsMap.t :=
  match JsMap.get id videoMap with
  | Some existing =>
      if text_at h video && negb (text_at h existing)
      then JsMap.set id video videoMap
      else videoMap
  | None => JsMap.set id video videoMap
  end.

(** The state of the loop over [result.items]: the heap, the table
    [videos], the local [videoMap], and how many times [Date.now()] has
    been read so far. *)
Record Loop := mkLoop {
  lp_heap : Heap;
  lp_videos : JsMap.t;
  lp_videoMap : JsMap.t;
  lp_ticks : nat
}.

(** The body of the loop once [getDownloadURL] and [getMetadata] have
    answered.  [clock n] is the [n]-th reading of [Date.now()] of this
    call; the right operand of [||] is evaluated, and the clock read,
    only when the left one is falsy. *)
Definition processFile (s : Storage) (metadataByUrl : JsMap.t)
    (clock : nat -> Z) (lp : Loop) (fileName url : string)
    (metadata : FullMetadata) : Loop :=
  let id := deriveId (clock (lp_ticks lp)) fileName in
  let ticks := if JsString.truthy (JsString.split_head "_" fileName)
               then lp_ticks lp else S (lp_ticks lp) in
  let cleanUrl := JsString.split_head "?" url in
  let '(video, h, table) :=
    resolve s metadataByUrl id fileName url cleanUrl metadata
            (lp_heap lp) (lp_videos lp) in
  mkLoop h table (addToMap h id video (lp_videoMap lp)) ticks.

(** One turn of the loop; an item whose URL or metadata cannot be
    fetched is logged and skipped. *)
Definition processItem (s : Storage) (metadataByUrl : JsMap.t)
    (clock : nat -> Z) (lp : Loop) (itemRef : VideoItem) : Loop :=
  match vi_downloadURL itemRef with
  | None => lp
  | Some url =>
      match vi_metadata itemRef with
      | None => lp
      | Some metadata =>
          processFile s metadataByUrl clock lp (vi_name itemRef) url
                      metadata
      end
  end.

(** *** [getVideos] *)

(** The fallback to memory-only videos. *)
Definition fromMemory (st : State) : Result (list Video) * State :=
  (mkResult true None (Some (sortVideos (snapshot (heap st) (videos st)))),
   st).

Definition thrownMessage (e : Thrown) : string :=
  match e with
  | ThrownError message => message
  | ThrownOther => "Failed to fetch videos"
  end.

(** The inner [try] block up to the sort; [None] when a listing throws.
    Nothing reachable has been written by then: the objects of the index
    are dropped with it. *)
Definition reconcile (s : Storage) (clock : nat -> Z) (st : State)
  : option Loop :=
  match listAll_metadata s with
  | None => None
  | Some metadataList =>
      let '(h, metadataByUrl) :=
        fold_left indexMetadata metadataList (heap st, JsMap.empty) in
      match listAll_videos s with
      | None => None
      | Some result =>
          Some (fold_left (processItem s metadataByUrl clock) result
                  (mkLoop h (videos st) JsMap.empty 0%nat))
      end
  end.

Definition getVideos (fb : Firebase) (clock : nat -> Z) (st : State)
  : Result (list Video) * State :=
  match fb with
  | Unavailable e => (mkResult false (Some (thrownMessage e)) (Some []), st)
  | Available s =>
      match reconcile s clock st with
      | Some lp =>
          (mkResult true None
             (Some (sortVideos (snapshot (lp_heap lp) (lp_videoMap lp)))),
           mkState (lp_heap lp) (lp_videos lp))
      | None => fromMemory st
      end
  end.

End Actions.

(** ** Dates in the format of [toISOString()]

    [getTime] reads [YYYY-MM-DDTHH:mm:ss.sssZ] and gives the milliseconds
    since the epoch, [None] for any other string.  The examples use it as
    the date parser. *)

Module IsoDate.

Definition digit (a : ascii) : option Z :=
  let n := Z.of_nat (nat_of_ascii a) in
  if (48 <=? n) && (n <=? 57) then Some (n - 48) else None.

Fixpoint number (acc : Z) (l : list ascii) : option Z :=
  match l with
  | [] => Some acc
  | a :: r => match digit a with
              | Some d => number (acc * 10 + d) r
              | None => None
              end
  end.

Definition field (from len : nat) (l : list ascii) : option Z :=
  number 0 (firstn len (skipn from l)).

Definition sep (at_ : nat) (c : ascii) (l : list ascii) : bool :=
  match skipn at_ l with
  | a :: _ => Ascii.eqb a c
  | [] => false
  end.

(** Days from 1970-01-01 to the given civil date. *)
Definition days_from_civil (y m d : Z) : Z :=
  let y' := if m <=? 2 then y - 1 else y in
  let era := y' / 400 in
  let yoe := y' - era * 400 in
  let doy := (153 * (if m >? 2 then m - 3 else m + 9) + 2) / 5 + d - 1 in
  let doe := yoe * 365 + yoe / 4 - yoe / 100 + doy in
  era * 146097 + doe - 719468.

Definition in_range (lo hi x : Z) : bool := (lo <=? x) && (x <=? hi).

Definition getTime (s : string) : option Z :=
  let l := list_ascii_of_string s in
  if Nat.eqb (List.length l) 24
     && sep 4 "-" l && sep 7 "-" l && sep 10 "T" l
     && sep 13 ":" l && sep 16 ":" l && sep 19 "." l && sep 23 "Z" l
  then
    match field 0 4 l, field 5 2 l, field 8 2 l,
          field 11 2 l, field 14 2 l, field 17 2 l, field 20 3 l with
    | Some y, Some mo, Some d, Some h, Some mi, Some sec, Some ms =>
        if in_range 1 12 mo && in_range 1 31 d && in_range 0 23 h
           && in_range 0 59 mi && in_range 0 59 sec
        then Some ((((days_from_civil y mo d * 24 + h) * 60 + mi) * 60
                    + sec) * 1000 + ms)
        else None
    | _, _, _, _, _, _, _ => None
    end
  else None.

End IsoDate.

(** ** Predicates of the statements *)

(** [c] occurs in [s]. *)
Fixpoint occurs (c : ascii) (s : string) : bool :=
  match s with
  | EmptyString => false
  | String a r => Ascii.eqb a c || occurs c r
  end.

Section Order.

Variable Date_getTime : string -> option Z.

(** [a] is not uploaded before [b], as far as the two dates can be
    read. *)
Definition not_older (a b : Video) : Prop :=
  match Date_getTime (v_uploadedAt a), Date_getTime (v_uploadedAt b) with
  | Some ta, Some tb => tb <= ta
  | _, _ => True
  end.

Definition dated (v : Video) : Prop :=
  is_Some (Date_getTime (v_uploadedAt v)).

(** Both dates can be read and [a] is not uploaded before [b]. *)
Definition newer_or_same (a b : Video) : Prop :=
  exists ta tb,
    Date_getTime (v_uploadedAt a) = Some ta
    /\ Date_getTime (v_uploadedAt b) = Some tb
    /\ tb <= ta.

End Order.

(** *** The resolution order of the specification *)

Inductive Tier := ByUrl | ById | ByCache | Synthesized.

(** The first tier of the list whose condition holds. *)
Definition first_match (conds : list (Tier * bool)) : Tier :=
  match find snd conds with
  | Some (t, _) => t
  | None => Synthesized
  end.

Definition is_some {A : Type} (o : option A) : bool :=
  match o with Some _ => true | None => false end.

(** (a) the canonical URL is in the metadata index, (b) the document
    [{id}.json] loads, (c) the table holds the id, (d) otherwise. *)
Definition tier_of (s : Storage) (metadataByUrl table : JsMap.t)
    (id cleanUrl : string) : Tier :=
  first_match
    [(ByUrl, JsMap.has cleanUrl metadataByUrl);
     (ById, is_some (loadVideoDataFromStorage s id));
     (ByCache, JsMap.has id table);
     (Synthesized, true)].

Definition refresh_all (id url : string) (metadata : FullMetadata)
    (v : Video) : Video :=
  mkVideo id (v_name v) url (md_size metadata) (v_uploadedAt v)
          (v_transcription v) (v_status v).

Definition refresh_url_size (url : string) (metadata : FullMetadata)
    (v : Video) : Video :=
  mkVideo (v_id v) (v_name v) url (md_size metadata) (v_uploadedAt v)
          (v_transcription v) (v_status v).

Definition synthesized (id fileName url : string) (metadata : FullMetadata)
  : Video :=
  mkVideo id (deriveName fileName) url (md_size metadata)
          (md_timeCreated metadata) None Completed.

(** What each tier adopts: the record, the heap and the table after it. *)
Inductive adopts (s : Storage) (metadataByUrl : JsMap.t)
    (id fileName url cleanUrl : string) (metadata : FullMetadata)
    (h : Heap) (table : JsMap.t) : Tier -> loc * Heap * JsMap.t -> Prop :=
| adopts_by_url (video : loc) :
    JsMap.get cleanUrl metadataByUrl = Some video ->
    adopts s metadataByUrl id fileName url cleanUrl metadata h table ByUrl
      (video, modify (refresh_all id url metadata) video h,
       JsMap.set id video table)
| adopts_by_id (saved : Video) :
    loadVideoDataFromStorage s id = Some saved ->
    adopts s metadataByUrl id fileName url cleanUrl metadata h table ById
      (List.length h, (h ++ [refresh_url_size url metadata saved])%list,
       JsMap.set id (List.length h) table)
| adopts_by_cache (video : loc) :
    JsMap.get id table = Some video ->
    adopts s metadataByUrl id fileName url cleanUrl metadata h table ByCache
      (video, modify (set_url url) video h, table)
| adopts_synthesized :
    adopts s metadataByUrl id fileName url cleanUrl metadata h table
      Synthesized
      (List.length h, (h ++ [synthesized id fileName url metadata])%list,
       JsMap.set id (List.length h) table).

(** *** Well-formed states and failure-free storage *)

(** Every reference of the map is below [n]. *)
Definition bounded (n : nat) (m : JsMap.t) : Prop :=
  Forall (fun l => (l < n)%nat) (JsMap.values m).

(** The table refers to objects of the heap only. *)
Definition wf_state (st : State) : Prop :=
  bounded (List.length (heap st)) (videos st).

(** The loop over the files keeps every reference inside the heap. *)
Definition loop_ok (metadataByUrl : JsMap.t) (lp : Loop) : Prop :=
  bounded (List.length (lp_heap lp)) metadataByUrl
  /\ bounded (List.length (lp_heap lp)) (lp_videos lp)
  /\ bounded (List.length (lp_heap lp)) (lp_videoMap lp).

Definition loads (mi : MetaItem) : bool := is_some (mi_json mi).



(** *** The files that resolve, and what the loop writes *)

(** A video file whose download URL and metadata have been fetched. *)
Record ResolvedFile := mkResolvedFile {
  rf_name : string;
  rf_url : string;
  rf_metadata : FullMetadata
}.

Definition resolved (it : VideoItem) : option ResolvedFile :=
  match vi_downloadURL it, vi_metadata it with
  | Some url, Some metadata => Some (mkResolvedFile (vi_name it) url metadata)
  | _, _ => None
  end.

Definition resolved_files (items : list VideoItem) : list ResolvedFile :=
  omap resolved items.

Definition processResolved (s : Storage) (metadataByUrl : JsMap.t)
    (clock : nat -> Z) (lp : Loop) (f : ResolvedFile) : Loop :=
  processFile s metadataByUrl clock lp (rf_name f) (rf_url f)
              (rf_metadata f).

(** The id prefix of the file name and the canonical URL. *)
Definition file_id (f : ResolvedFile) : string :=
  JsString.split_head "_" (rf_name f).

Definition file_cleanUrl (f : ResolvedFile) : string :=
  JsString.split_head "?" (rf_url f).

(** The files that resolve have pairwise distinct, non-empty id
    prefixes. *)
Definition distinct_ids (s : Storage) : Prop :=
  List.NoDup (map file_id (resolved_files (st_videos s)))
  /\ Forall (fun f => JsString.truthy (file_id f) = true)
            (resolved_files (st_videos s)).

(** What the turn of file [f] does to the object at [l], whose value is
    [v], when the table at the start of the loop is [table]. *)
Definition file_write (s : Storage) (metadataByUrl table : JsMap.t)
    (l : loc) (v : Video) (f : ResolvedFile) : Video :=
  match tier_of s metadataByUrl table (file_id f) (file_cleanUrl f) with
  | ByUrl =>
      match JsMap.get (file_cleanUrl f) metadataByUrl with
      | Some l' => if Nat.eqb l' l
                   then refresh_all (file_id f) (rf_url f) (rf_metadata f) v
                   else v
      | None => v
      end
  | ByCache =>
      match JsMap.get (file_id f) table with
      | Some l' => if Nat.eqb l' l then set_url (rf_url f) v else v
      | None => v
      end
  | _ => v
  end.

(** Where the record of file [f] is after the loop: [n] is the size of the
    heap when the loop starts, [h] the heap when it ends. *)
Definition placed (s : Storage) (metadataByUrl table : JsMap.t)
    (f : ResolvedFile) (n : nat) (h : Heap) (l : loc) : Prop :=
  match tier_of s metadataByUrl table (file_id f) (file_cleanUrl f) with
  | ByUrl => JsMap.get (file_cleanUrl f) metadataByUrl = Some l
  | ById =>
      (n <= l)%nat
      /\ exists saved,
          loadVideoDataFromStorage s (file_id f) = Some saved
          /\ deref h l
             = Some (refresh_url_size (rf_url f) (rf_metadata f) saved)
  | ByCache => JsMap.get (file_id f) table = Some l
  | Synthesized =>
      (n <= l)%nat
      /\ deref h l
         = Some (synthesized (file_id f) (rf_name f) (rf_url f)
                             (rf_metadata f))
  end.

(** ** Sample data of the examples *)

Module Samples.

Definition done_video : Video :=
  mkVideo "17" "a.mp4" "https://h/v/17_a.mp4" 10
          "2024-01-01T00:00:00.000Z" None Completed.

Definition url_a : string := "https://fs/v/1700000000000_a.mp4?token=ta".
Definition url_b : string := "https://fs/v/1700000000400_b.mp4?token=tb".

Definition md_a : FullMetadata :=
  mkFullMetadata 10 "2024-05-01T10:00:00.000Z".
Definition md_b : FullMetadata :=
  mkFullMetadata 20 "2024-05-01T10:00:00.400Z".

Definition talk : Transcription :=
  mkTranscription "tr-1" "hello there" TCompleted None None
                  (Some "2024-05-01T10:05:00.000Z").

(** The metadata document written for file b, under the id that
    [saveVideoMetadata] gave it. *)
Definition meta_b : Video :=
  mkVideo "1700000000500" "b.mp4" url_b 20 "2024-05-01T10:00:01.000Z"
          (Some talk) Completed.

Definition file_a : VideoItem :=
  mkVideoItem "1700000000000_a.mp4" (Some url_a) (Some md_a).
Definition file_b : VideoItem :=
  mkVideoItem "1700000000400_b.mp4" (Some url_b) (Some md_b).
Definition file_c : VideoItem :=
  mkVideoItem "1700000000900_c.mp4" None (Some md_a).

(** Two files, a document for one of them, and one failing item in each
    namespace. *)
Definition library : Storage :=
  mkStorage [mkMetaItem "1700000000500.json" (Some meta_b);
             mkMetaItem "1700000000950.json" None]
            [file_a; file_c; file_b] true true.

(** The metadata namespace cannot be listed. *)
Definition offline : Storage :=
  mkStorage [] [file_a] false true.

(** A table with two records. *)
Definition two_records : State :=
  mkState [done_video;
           mkVideo "18" "z.mp4" "https://h/v/18_z.mp4" 11
                   "2024-02-01T00:00:00.000Z" None Processing]
          [("17", 0%nat); ("18", 1%nat)].

Definition empty_state : State := mkState [] JsMap.empty.

(** Two files dropped together share the id prefix; the document of the
    second is still being processed. *)
Definition url_b' : string := "https://fs/v/1700000000000_b.mp4?token=tb".

Definition pending_b : Video :=
  mkVideo "1700000000500" "b.mp4" url_b' 20 "2024-05-01T10:00:01.000Z"
          None Processing.

Definition collision : Storage :=
  mkStorage [mkMetaItem "1700000000500.json" (Some pending_b)]
            [mkVideoItem "1700000000000_a.mp4" (Some url_a) (Some md_a);
             mkVideoItem "1700000000000_b.mp4" (Some url_b') (Some md_b)]
            true true.

(** A file whose name starts with '_'. *)
Definition nameless : Storage :=
  mkStorage [] [mkVideoItem "_clip.mp4" (Some url_a) (Some md_a)]
            true true.

Definition noon (n : nat) : Z := 1700000001000.
Definition later (n : nat) : Z := 1700000002000.

End Samples.

(** ** The table as a [Map], and sequences of calls *)

(** A [Map] holds each key once. *)
Definition map_ok (m : JsMap.t) : Prop := List.NoDup (JsMap.keys m).

(** The calls of [videos.ts] that write the module state. *)
Inductive Action :=
| CallSave (now : Z) (video : Video)
| CallUpdate (videoId : string) (status : Status)
             (transcription : option Transcription)
| CallGetVideos (fb : Firebase) (clock : nat -> Z)
| CallDelete (videoId : string).

Section Calls.

Variable Date_getTime : string -> option Z.

Definition perform (a : Action) (st : State) : State :=
  match a with
  | CallSave now video => snd (saveVideoMetadata now video st)
  | CallUpdate videoId status transcription =>
      snd (updateVideoStatus videoId status transcription st)
  | CallGetVideos fb clock => snd (getVideos Date_getTime fb clock st)
  | CallDelete videoId => snd (deleteVideo videoId st)
  end.

(** The state after a sequence of calls on a fresh module. *)
Definition after (calls : list Action) : State :=
  fold_left (fun st a => perform a st) calls (mkState [] JsMap.empty).

End Calls.

(** ** The ids that one run of the loop derives *)

(** The ids of the files in turn; [n] counts the clock readings taken so
    far, one for each file name whose prefix is empty. *)
Fixpoint derived_ids (clock : nat -> Z) (n : nat) (fs : list ResolvedFile)
  : list string :=
  match fs with
  | [] => []
  | f :: rest =>
      deriveId (clock n) (rf_name f)
      :: derived_ids clock
           (if JsString.truthy (file_id f) then n else S n) rest
  end.

(** ** The document the index holds for a canonical URL *)

(** The last document, in listing order, that loads and whose URL has the
    canonical form [cleanUrl]; [found] is the one found so far. *)
Definition last_doc (cleanUrl : string) (found : option Video)
    (docs : list MetaItem) : option Video :=
  fold_left
    (fun found mi =>
       match mi_json mi with
       | Some v =>
           if String.eqb (JsString.split_head "?" (v_url v)) cleanUrl
           then Some v else found
       | None => found
       end)
    docs found.

Definition indexed_doc (cleanUrl : string) (docs : list MetaItem)
  : option Video :=
  last_doc cleanUrl None docs.

(** ** The transcription actions ([transcription.ts]) *)

(** What the transcription service hands back. *)
Record Transcript := mkTranscript {
  tr_id : string;
  tr_status : TranscriptStatus;
  tr_text : option string;
  tr_words : option (list Word);
  tr_utterances : option (list Utterance);
  tr_error : option string
}.

(** A call of the client: it throws or returns a transcript. *)
Inductive ClientOutcome :=
| ClientThrows (e : Thrown)
| ClientReturns (t : Transcript).

(** The [data] of a successful answer. *)
Record TranscriptData := mkTranscriptData {
  td_id : string;
  td_text : string;
  td_status : TranscriptStatus;
  td_words : list Word;
  td_utterances : list Utterance
}.

(** [error instanceof Error ? error.message : fallback]. *)
Definition messageOr (fallback : string) (e : Thrown) : string :=
  match e with
  | ThrownError message => message
  | ThrownOther => fallback
  end.

(** [x || fallback] for an optional string. *)
Definition textOr (fallback : string) (x : option string) : string :=
  match x with
  | Some t => JsString.or_else t fallback
  | None => fallback
  end.

Definition listOr {A : Type} (x : option (list A)) : list A :=
  match x with Some l => l | None => [] end.

Definition transcriptData (t : Transcript) : TranscriptData :=
  mkTranscriptData (tr_id t) (textOr "" (tr_text t)) (tr_status t)
                   (listOr (tr_words t)) (listOr (tr_utterances t)).

(** [transcribeVideo]; [transcribe] is [client.transcripts.transcribe]
    on the audio URL. *)
Definition transcribeVideo (transcribe : string -> ClientOutcome)
    (videoUrl : string) : Result TranscriptData :=
  match transcribe videoUrl with
  | ClientReturns transcript =>
      match tr_status transcript with
      | TError =>
          mkResult false
            (Some (messageOr "Failed to transcribe video"
                     (ThrownError (textOr "Transcription failed"
                                          (tr_error transcript)))))
            None
      | _ => mkResult true None (Some (transcriptData transcript))
      end
  | ClientThrows e =>
      mkResult false (Some (messageOr "Failed to transcribe video" e)) None
  end.

(** [getTranscriptionStatus]; [get] is [client.transcripts.get]. *)
Definition getTranscriptionStatus (get : string -> ClientOutcome)
    (transcriptId : string) : Result TranscriptData :=
  match get transcriptId with
  | ClientReturns transcript =>
      mkResult true None (Some (transcriptData transcript))
  | ClientThrows e =>
      mkResult false
        (Some (messageOr "Failed to get transcription status" e)) None
  end.

(** ** Writing a metadata document ([lib/storage.ts]) *)

(** The object [name] of the metadata namespace takes the content [v]: in
    place when the name exists.  Where a new name stands in later listings
    is the service's choice; it is put last here. *)
Fixpoint putDocument (name : string) (v : Video) (docs : list MetaItem)
  : list MetaItem :=
  match docs with
  | [] => [mkMetaItem name (Some v)]
  | mi :: rest =>
      if String.eqb (mi_name mi) name then mkMetaItem name (Some v) :: rest
      else mi :: putDocument name v rest
  end.

(** [saveVideoMetadataToStorage]; [accepted] tells whether [uploadString]
    goes through.  The document is the JSON text of the video, which
    parses back to it. *)
Definition saveVideoMetadataToStorage (accepted : bool) (video : Video)
    (s : Storage) : bool * Storage :=
  if accepted then
    (true,
     mkStorage (putDocument (v_id video ++ ".json") video (st_metadata s))
               (st_videos s) (st_metadata_listable s)
               (st_videos_listable s))
  else (false, s).

(** ** The upload component: the list of uploads and the pipeline *)

Module UploadFlow.
Import Upload.

Record UploadProgress := mkUploadProgress {
  up_fileName : string;
  up_progress : Z;
  up_status : Status;
  up_error : option string
}.

(** [setUploads(prev => [...prev, entry])]. *)
Definition addUpload (entry : UploadProgress) (uploads : list UploadProgress)
  : list UploadProgress :=
  (uploads ++ [entry])%list.

(** [setUploads(prev => prev.map(upload => upload.fileName === name ?
    change(upload) : upload))]. *)
Definition changeUploads (name : string)
    (change : UploadProgress -> UploadProgress)
    (uploads : list UploadProgress) : list UploadProgress :=
  map (fun upload => if String.eqb (up_fileName upload) name
                     then change upload else upload) uploads.

Definition failed (name message : string) : UploadProgress :=
  mkUploadProgress name 0 Error (Some message).

Definition withProgress (p : Z) (u : UploadProgress) : UploadProgress :=
  mkUploadProgress (up_fileName u) p (up_status u) (up_error u).

Definition withStatus (st : Status) (u : UploadProgress) : UploadProgress :=
  mkUploadProgress (up_fileName u) (up_progress u) st (up_error u).

Definition withFailure (message : string) (u : UploadProgress)
  : UploadProgress :=
  mkUploadProgress (up_fileName u) (up_progress u) Error (Some message).

(** [removeUpload]. *)
Definition removeUpload (fileName : string) (uploads : list UploadProgress)
  : list UploadProgress :=
  List.filter (fun upload => negb (String.eqb (up_fileName upload) fileName))
              uploads.

(** How the creation of the upload task goes: [ref] throws, or the task
    throws once the entry is in the list, or the task starts. *)
Inductive Init :=
| RefThrows (e : Thrown)
| TaskThrows (e : Thrown)
| Started.

(** The start of [uploadFile], up to the creation of the upload task:
    [user] tells whether someone is signed in, [configured] whether the
    storage handle exists, [now] is [Date.now()].  The result is the list
    of uploads and, when the task starts, the path it writes to. *)
Definition uploadFile (user configured : bool) (now : Z) (init : Init)
    (file : File) (uploads : list UploadProgress)
  : list UploadProgress * option string :=
  if negb user then
    (addUpload (failed (f_name file) "You must be signed in to upload videos")
               uploads, None)
  else
    match validateFile file with
    | Some validation =>
        (addUpload (failed (f_name file) validation) uploads, None)
    | None =>
        if negb configured then
          (addUpload
             (failed (f_name file)
                "Firebase Storage is not configured. Please check your .env.local file.")
             uploads, None)
        else
          let uploadId := JsString.of_number now in
          let uploading :=
            addUpload (mkUploadProgress (f_name file) 0 Uploading None)
                      uploads in
          match init with
          | RefThrows e =>
              (changeUploads (f_name file)
                 (withFailure (messageOr "Failed to initialize upload" e))
                 uploads, None)
          | TaskThrows e =>
              (changeUploads (f_name file)
                 (withFailure (messageOr "Failed to initialize upload" e))
                 uploading, None)
          | Started =>
              (uploading,
               Some ("videos/" ++ uploadId ++ "_" ++ f_name file))
          end
    end.

(** The progress callback; [percent] is the rounded percentage. *)
Definition onProgress (fileName : string) (percent : Z)
    (uploads : list UploadProgress) : list UploadProgress :=
  changeUploads fileName (withProgress percent) uploads.

(** The error callback of the upload task. *)
Definition onError (fileName message : string)
    (uploads : list UploadProgress) : list UploadProgress :=
  changeUploads fileName (withFailure message) uploads.

(** What the completion callback meets outside: the download URL of the
    uploaded file, the clock, the two writes of the metadata document and
    the transcription service. *)
Record Outside := mkOutside {
  o_downloadURL : Thrown + string;
  o_now : Z;
  o_savedAt : string;
  o_initialAt : string;
  o_completedAt : string;
  o_finalAt : string;
  o_finalCompletedAt : string;
  o_initialWrite : bool;
  o_finalWrite : bool;
  o_transcribe : string -> ClientOutcome
}.

(** The server state, the storage, the list of uploads, and how many times
    [onUploadComplete] has been called. *)
Record World := mkWorld {
  w_state : State;
  w_storage : Storage;
  w_uploads : list UploadProgress;
  w_completed : nat
}.

Definition withTranscript (data : TranscriptData) (completedAt : string)
  : Transcription :=
  mkTranscription (td_id data) (td_text data) TCompleted
                  (Some (td_words data)) (Some (td_utterances data))
                  (Some completedAt).

(** The completion callback of the upload task. *)
Definition onComplete (o : Outside) (file : File) (w : World) : World :=
  match o_downloadURL o with
  | inl e =>
      mkWorld (w_state w) (w_storage w)
        (changeUploads (f_name file)
           (withFailure (messageOr "Processing failed" e)) (w_uploads w))
        (w_completed w)
  | inr downloadURL =>
      let '(saveResult, st1) :=
        saveVideoMetadata (o_now o)
          (mkVideo "" (f_name file) downloadURL (f_size file) (o_savedAt o)
                   None Processing)
          (w_state w) in
      let videoId := JsString.of_number (o_now o) in
      let initialVideo :=
        mkVideo videoId (f_name file) downloadURL (f_size file)
                (o_initialAt o) None Processing in
      let '(_, s1) :=
        saveVideoMetadataToStorage (o_initialWrite o) initialVideo
                                   (w_storage w) in
      let uploads1 :=
        changeUploads (f_name file)
          (fun u => withStatus Processing (withProgress 100 u))
          (w_uploads w) in
      let transcriptionResult := transcribeVideo (o_transcribe o) downloadURL in
      match success transcriptionResult, data transcriptionResult with
      | true, Some d =>
          let '(_, st2) :=
            updateVideoStatus videoId Completed
              (Some (withTranscript d (o_completedAt o))) st1 in
          let videoWithTranscription :=
            mkVideo videoId (f_name file) downloadURL (f_size file)
                    (o_finalAt o)
                    (Some (withTranscript d (o_finalCompletedAt o)))
                    Completed in
          let '(_, s2) :=
            saveVideoMetadataToStorage (o_finalWrite o)
                                       videoWithTranscription s1 in
          mkWorld st2 s2
            (changeUploads (f_name file) (withStatus Completed) uploads1)
            (S (w_completed w))
      | _, _ =>
          mkWorld st1 s1
            (changeUploads (f_name file)
               (withFailure
                  (textOr "Transcription failed" (error transcriptionResult)))
               uploads1)
            (w_completed w)
      end
  end.

End UploadFlow.

(** ** The route that lists the metadata documents *)

Module MetadataRoute.

(** One entry of [files]. *)
Record Listed := mkListed {
  ls_name : string;
  ls_data : Video;
  ls_hasTranscription : bool
}.

(** The JSON answer with its HTTP status. *)
Record Answer := mkAnswer {
  an_status : Z;
  an_success : bool;
  an_count : option Z;
  an_files : option (list Listed);
  an_error : option string
}.

(** One turn of the loop: [metadataFiles.push(...)], or the item is
    logged and skipped. *)
Definition pushItem (metadataFiles : list Listed) (item : MetaItem)
  : list Listed :=
  match mi_json item with
  | Some data =>
      (metadataFiles ++ [mkListed (mi_name item) data (has_text data)])%list
  | None => metadataFiles
  end.

(** The handler; [listError] is what [listAll] throws when the namespace
    cannot be listed. *)
Definition GET (fb : Firebase) (listError : Thrown) : Answer :=
  match fb with
  | Unavailable e =>
      mkAnswer 500 false None None
               (Some (messageOr "Failed to list metadata" e))
  | Available s =>
      match listAll_metadata s with
      | None =>
          mkAnswer 500 false None None
                   (Some (messageOr "Failed to list metadata" listError))
      | Some items =>
          let metadataFiles := fold_left pushItem items [] in
          mkAnswer 200 true (Some (Z.of_nat (List.length metadataFiles)))
                   (Some metadataFiles) None
      end
  end.

End MetadataRoute.

(** ** More sample data *)

Module Samples2.
Import Samples UploadFlow.

(** The loop of [reconcile] over the library, from a fresh module. *)
Definition library_loop : Loop :=
  match reconcile library noon empty_state with
  | Some lp => lp
  | None => mkLoop [] JsMap.empty JsMap.empty 0%nat
  end.

(** Three saves in a row on a fresh module; the second video's upload
    date is no date. *)
Definition jan : Video :=
  mkVideo "" "jan.mp4" "https://fs/v/jan.mp4" 10
          "2024-01-01T00:00:00.000Z" None Processing.
Definition undated : Video :=
  mkVideo "" "x.mp4" "https://fs/v/x.mp4" 11 "yesterday" None Processing.
Definition mar : Video :=
  mkVideo "" "mar.mp4" "https://fs/v/mar.mp4" 12
          "2024-03-01T00:00:00.000Z" None Processing.

Definition undated_table : State :=
  snd (saveVideoMetadata 1700000000003 mar
         (snd (saveVideoMetadata 1700000000002 undated
                 (snd (saveVideoMetadata 1700000000001 jan empty_state))))).

(** The same loop once the table has forgotten file a. *)
Definition forgot_a : State :=
  snd (deleteVideo "1700000000000"
         (mkState [done_video] [("1700000000000", 0%nat)])).

Definition library_again : Loop :=
  match reconcile library noon forgot_a with
  | Some lp => lp
  | None => mkLoop [] JsMap.empty JsMap.empty 0%nat
  end.

Definition resolved_a : ResolvedFile :=
  mkResolvedFile "1700000000000_a.mp4" url_a md_a.
Definition resolved_b : ResolvedFile :=
  mkResolvedFile "1700000000400_b.mp4" url_b md_b.

(** A document named after the id of file a, whose URL is an old one. *)
Definition moved_a : Video :=
  mkVideo "1700000000000" "a.mp4" "https://old/v/a.mp4?token=x" 9
          "2024-04-30T09:00:00.000Z" (Some talk) Completed.

Definition archive : Storage :=
  mkStorage [mkMetaItem "1700000000000.json" (Some moved_a)]
            [file_a; file_b] true true.

(** The table knows file a under its id. *)
Definition cached_a : Video :=
  mkVideo "1700000000000" "a.mp4" "https://fs/v/1700000000000_a.mp4?token=old"
          10 "2024-05-01T10:00:00.500Z" None Processing.

Definition knows_a : State :=
  mkState [cached_a] [("1700000000000", 0%nat)].

(** The storage once file b is up, before any document is written. *)
Definition uploaded_b : Storage :=
  mkStorage [] [file_a; file_b] true true.

Definition clip_b : Upload.File := Upload.mkFile "b.mp4" "video/mp4" 20.

Definition spoken : Transcript :=
  mkTranscript "tr-1" TCompleted (Some "hello there") None None None.

Definition broken : Transcript :=
  mkTranscript "tr-2" TError None None None (Some "audio too short").

Definition outside (t : Transcript) : Outside :=
  mkOutside (inr url_b) 1700000000500
            "2024-05-01T10:00:01.000Z" "2024-05-01T10:00:01.100Z"
            "2024-05-01T10:05:00.000Z" "2024-05-01T10:05:00.100Z"
            "2024-05-01T10:05:00.200Z" true true
            (fun _ => ClientReturns t).

Definition uploading_b : World :=
  mkWorld empty_state uploaded_b
          [mkUploadProgress "b.mp4" 100 Uploading None] 0.

End Samples2.

(** * Properties *)

(** ** Upload validation *)

Module UploadFacts.
Import Upload.

Lemma includes_allowed (ty : string) :
  JsString.includes allowedTypes ty = true <->
  ty = "video/mp4" \/ ty = "video/webm" \/ ty = "video/ogg"
  \/ ty = "video/quicktime".
Proof.
  unfold JsString.includes, allowedTypes; simpl.
  rewrite !orb_true_iff, !String.eqb_eq. intuition discriminate.
Qed.

(** C8: [validateFile] returns the type rejection exactly for the files
    whose declared MIME type is none of video/mp4, video/webm, video/ogg,
    video/quicktime; a file with one of the four types never gets it. *)
Theorem validateFile_type (file : File) :
  validateFile file = Some type_rejection <->
  ~ (f_type file = "video/mp4" \/ f_type file = "video/webm"
     \/ f_type file = "video/ogg" \/ f_type file = "video/quicktime").
Proof.
  rewrite <- includes_allowed. unfold validateFile.
  destruct (JsString.includes allowedTypes (f_type file)); simpl.
  - destruct (f_size file >? maxSize); split; intros H;
      try discriminate; exfalso; auto.
  - split; [intros _ H; discriminate | reflexivity].
Qed.

(** The size check as the code has it: an allowed file gets the size
    rejection exactly when its size exceeds the limit. *)
Lemma validateFile_size (file : File) :
  JsString.includes allowedTypes (f_type file) = true ->
  (validateFile file = Some size_rejection <-> f_size file > maxSize)
  /\ (validateFile file = None <-> f_size file <= maxSize).
Proof.
  intros Hty. unfold validateFile. rewrite Hty; simpl.
  destruct (Z.gtb_spec (f_size file) maxSize); split; split;
    intros; try discriminate; try reflexivity; lia.
Qed.

(** C1 at the boundary: a video/mp4 file of exactly 250*1024*1024 bytes
    passes [validateFile], although its size is not less than 250MB. *)
Theorem validateFile_at_limit :
  validateFile (mkFile "clip.mp4" "video/mp4" (250 * 1024 * 1024)) = None.
Proof. reflexivity. Qed.

End UploadFacts.

(** ** The in-memory table: [updateVideoStatus], [getVideoById] *)

Module TableFacts.

(** C9: for a [videoId] that is not in the table, [updateVideoStatus]
    answers [success: false] with the error 'Video not found' and leaves
    the state (the table and every object) as it was; [getVideoById]
    gives the same answer. *)
Theorem unknown_id_not_found (videoId : string) (status : Status)
    (transcription : option Transcription) (st : State) :
  JsMap.get videoId (videos st) = None ->
  updateVideoStatus videoId status transcription st
    = (mkResult false (Some "Video not found") None, st)
  /\ getVideoById videoId st
    = mkResult false (Some "Video not found") None.
Proof.
  intros Hget. unfold updateVideoStatus, getVideoById, not_found.
  now rewrite Hget.
Qed.

Lemma unknown_id_not_found_witness :
  let st := mkState
    [mkVideo "17" "a.mp4" "https://h/v/17_a.mp4" 10
             "2024-01-01T00:00:00.000Z" None Processing]
    [("17", 0%nat)] in
  JsMap.get "18" (videos st) = None
  /\ updateVideoStatus "18" Completed None st
     = (mkResult false (Some "Video not found") None, st)
  /\ getVideoById "18" st = mkResult false (Some "Video not found") None.
Proof.
  intros st. split; [reflexivity |].
  apply (unknown_id_not_found "18" Completed None st). reflexivity.
Defined.

Lemma deref_modify_eq (f : Video -> Video) (l : loc) (h : Heap) (v : Video) :
  deref h l = Some v -> deref (modify f l h) l = Some (f v).
Proof.
  unfold deref, modify. intros H.
  now rewrite list_lookup_alter_eq, H.
Qed.

Lemma deref_modify_ne (f : Video -> Video) (l l' : loc) (h : Heap) :
  l <> l' -> deref (modify f l h) l' = deref h l'.
Proof. unfold deref, modify. intros H. now apply list_lookup_alter_ne. Qed.

(** C5, as the code has it: [updateVideoStatus] on a record of the table
    stores the requested status whatever the current one is, 'completed'
    and 'error' included; the other fields keep their values, except the
    transcription when one is passed. *)
Theorem updateVideoStatus_overwrites (videoId : string) (status : Status)
    (transcription : option Transcription) (st : State) (l : loc)
    (v : Video) :
  JsMap.get videoId (videos st) = Some l ->
  deref (heap st) l = Some v ->
  let v' := mkVideo (v_id v) (v_name v) (v_url v) (v_size v)
              (v_uploadedAt v)
              (match transcription with
               | Some t => Some t
               | None => v_transcription v
               end) status in
  let '(res, st') := updateVideoStatus videoId status transcription st in
  res = mkResult true None (Some v')
  /\ deref (heap st') l = Some v'
  /\ (v_status v' = v_status v <-> status = v_status v).
Proof.
  intros Hget Hv. unfold updateVideoStatus. rewrite Hget.
  destruct transcription as [t|]; cbv zeta; cbn [heap].
  - assert (E : deref (modify (set_transcription (Some t)) l
                        (modify (set_status status) l (heap st))) l
                = Some (set_transcription (Some t) (set_status status v)))
      by now apply deref_modify_eq, deref_modify_eq.
    rewrite E. repeat split; simpl; auto.
  - rewrite (deref_modify_eq _ l _ v Hv).
    repeat split; simpl; auto.
Qed.

Lemma updateVideoStatus_overwrites_witness :
  let st := mkState [Samples.done_video] [("17", 0%nat)] in
  let '(res, st') := updateVideoStatus "17" Error None st in
  res = mkResult true None (Some (set_status Error Samples.done_video))
  /\ deref (heap st') 0%nat = Some (set_status Error Samples.done_video)
  /\ (Error = Completed <-> Error = Completed).
Proof.
  intros st.
  apply (updateVideoStatus_overwrites "17" Error None st 0%nat Samples.done_video);
    reflexivity.
Defined.

(** C5 as stated fails: a 'completed' record is put back to 'processing'
    by a later [updateVideoStatus], and an 'error' record to
    'completed'. *)
Lemma terminal_status_left :
  let st := mkState [Samples.done_video; set_status Error Samples.done_video]
                    [("17", 0%nat); ("18", 1%nat)] in
  (v_status <$> deref (heap st) 0%nat = Some Completed
   /\ v_status <$> deref
        (heap (snd (updateVideoStatus "17" Processing None st))) 0%nat
      = Some Processing)
  /\ (v_status <$> deref (heap st) 1%nat = Some Error
      /\ v_status <$> deref
           (heap (snd (updateVideoStatus "18" Completed None st))) 1%nat
         = Some Completed).
Proof. repeat split. Qed.

End TableFacts.

(** ** The id and the name taken from a file name *)

Module NamingFacts.

Lemma split_head_absent (c : ascii) (s : string) :
  occurs c s = false -> JsString.split_head c s = s.
Proof.
  induction s as [|a r IH]; simpl; [reflexivity |].
  destruct (Ascii.eqb a c); simpl; [discriminate |].
  intros H. now rewrite IH.
Qed.

Lemma split_head_first (c : ascii) (pre rest : string) :
  occurs c pre = false ->
  JsString.split_head c (pre ++ String c rest) = pre.
Proof.
  induction pre as [|a r IH]; simpl.
  - now rewrite Ascii.eqb_refl.
  - destruct (Ascii.eqb a c); simpl; [discriminate |].
    intros H. now rewrite IH.
Qed.

Lemma split_head_clean (c : ascii) (s : string) :
  occurs c (JsString.split_head c s) = false.
Proof.
  induction s as [|a r IH]; simpl; [reflexivity |].
  destruct (Ascii.eqb a c) eqn:E; simpl; [reflexivity |].
  now rewrite E, IH.
Qed.

(** Every string splits at its first [c], if it has one. *)
Lemma split_head_decompose (c : ascii) (s : string) :
  s = JsString.split_head c s
  \/ exists rest, s = JsString.split_head c s ++ String c rest.
Proof.
  induction s as [|a r IH]; simpl; [now left |].
  destruct (Ascii.eqb_spec a c) as [->|Hne].
  - right. now exists r.
  - destruct IH as [IH | [rest IH]].
    + left. now rewrite <- IH.
    + right. exists rest. simpl. now rewrite <- IH.
Qed.

(** C6, as the code has it: the id is the part of the file name before
    its first '_', which is the whole file name when it has no '_'; the
    current time is the id only when that part is empty (the name is
    empty or starts with '_'). *)
Theorem deriveId_prefix (now : Z) (fileName pre rest : string) :
  occurs "_" pre = false ->
  fileName = pre \/ fileName = pre ++ String "_" rest ->
  deriveId now fileName
    = if JsString.truthy pre then pre else JsString.of_number now.
Proof.
  intros Hpre [-> | ->]; unfold deriveId, JsString.or_else.
  - now rewrite split_head_absent.
  - now rewrite split_head_first.
Qed.

Lemma deriveId_prefix_witness :
  (occurs "_" "1700000000000" = false
   /\ deriveId 5 "1700000000000_my_clip.mp4" = "1700000000000")
  /\ (occurs "_" "" = false /\ deriveId 5 "_clip.mp4" = "5").
Proof.
  split; (split; [reflexivity |]).
  - apply (deriveId_prefix 5 "1700000000000_my_clip.mp4" "1700000000000"
             "my_clip.mp4"); [reflexivity | now right].
  - apply (deriveId_prefix 5 "_clip.mp4" "" "clip.mp4");
      [reflexivity | now right].
Defined.

(** C6 as stated fails: a file name without '_' is its own id, not the
    current time. *)
Lemma no_underscore_keeps_name :
  occurs "_" "holiday.mp4" = false
  /\ deriveId 1700000000000 "holiday.mp4" = "holiday.mp4"
  /\ deriveId 1700000000000 "holiday.mp4"
     <> JsString.of_number 1700000000000.
Proof. repeat split. discriminate. Qed.

End NamingFacts.

(** ** The values of the table *)

Lemma omap_ext_in {A B : Type} (f g : A -> option B) (l : list A) :
  (forall x, In x l -> f x = g x) -> omap f l = omap g l.
Proof.
  induction l as [|x r IH]; intros H; [reflexivity |].
  cbn. rewrite (H x) by now left. rewrite IH; [reflexivity |].
  intros y Hy. apply H. now right.
Qed.

(** With distinct keys, the values are the lookups of the keys. *)
Lemma snapshot_keys (h : Heap) (m : JsMap.t) :
  List.NoDup (JsMap.keys m) ->
  snapshot h m
  = omap (fun k => JsMap.get k m ≫= deref h) (JsMap.keys m).
Proof.
  unfold snapshot, JsMap.keys, JsMap.values.
  induction m as [|[k x] r IH]; intros Hnd; [reflexivity |].
  cbn in Hnd. inversion Hnd as [|? ? Hnotin Hnd']; subst.
  cbn. rewrite String.eqb_refl; cbn. rewrite (IH Hnd').
  assert (E : omap (fun k0 => JsMap.get k0 r ≫= deref h) (map fst r)
              = omap (fun k0 => (if String.eqb k k0 then Some x
                                 else JsMap.get k0 r) ≫= deref h)
                     (map fst r)).
  { apply omap_ext_in. intros k0 Hk0.
    destruct (String.eqb_spec k k0) as [->|Hne]; [| reflexivity].
    contradiction. }
  now rewrite E.
Qed.

(** What [Array.from(videos.values())] holds is what a lookup finds under
    each key of the table, in the order of the keys. *)
Lemma snapshot_lookups (st : State) :
  map_ok (videos st) ->
  snapshot (heap st) (videos st)
  = omap (fun id => data (getVideoById id st)) (JsMap.keys (videos st)).
Proof.
  intros Hok. rewrite (snapshot_keys _ _ Hok).
  apply omap_ext_in. intros id _. unfold getVideoById.
  now destruct (JsMap.get id (videos st)).
Qed.

(** ** Sorting by upload date *)

Section SortFacts.

Variable Date_getTime : string -> option Z.

Local Abbreviation cmp := (byUploadedAtDesc Date_getTime).
Local Abbreviation no_older := (not_older Date_getTime).
Local Abbreviation newer := (newer_or_same Date_getTime).
Local Abbreviation has_date := (dated Date_getTime).

Lemma sort_insert_perm {A : Type} (c : A -> A -> Z) (x : A) (l : list A) :
  Permutation (sort_insert c x l) (x :: l).
Proof.
  induction l as [|y r IH]; simpl; [reflexivity |].
  destruct (c x y <=? 0); [reflexivity |].
  rewrite IH. apply perm_swap.
Qed.

Lemma js_sort_perm {A : Type} (c : A -> A -> Z) (l : list A) :
  Permutation (js_sort c l) l.
Proof.
  induction l as [|x r IH]; simpl; [reflexivity |].
  rewrite sort_insert_perm. now constructor.
Qed.

Lemma cmp_le_not_older (a b : Video) : cmp a b <= 0 -> no_older a b.
Proof.
  unfold byUploadedAtDesc, not_older.
  destruct (Date_getTime (v_uploadedAt b)), (Date_getTime (v_uploadedAt a));
    intros; auto; lia.
Qed.

Lemma cmp_gt_not_older (a b : Video) : cmp a b > 0 -> no_older b a.
Proof.
  unfold byUploadedAtDesc, not_older.
  destruct (Date_getTime (v_uploadedAt b)), (Date_getTime (v_uploadedAt a));
    intros; auto; lia.
Qed.

Lemma sort_insert_hd (x y : Video) (l : list Video) :
  no_older y x -> HdRel no_older y l ->
  HdRel no_older y (sort_insert cmp x l).
Proof.
  intros Hyx Hl. destruct l as [|z r]; simpl; [now constructor |].
  destruct (cmp x z <=? 0); constructor; auto.
  now inversion Hl.
Qed.

Lemma sort_insert_sorted (x : Video) (l : list Video) :
  Sorted no_older l -> Sorted no_older (sort_insert cmp x l).
Proof.
  induction 1 as [|y r Hr IH Hhd]; simpl.
  - repeat constructor.
  - destruct (Z.leb_spec (cmp x y) 0) as [Hle | Hgt].
    + constructor; [now constructor |].
      constructor. now apply cmp_le_not_older.
    + constructor; [exact IH |].
      apply sort_insert_hd; [apply cmp_gt_not_older; lia | exact Hhd].
Qed.

Lemma sortVideos_sorted (l : list Video) :
  Sorted no_older (sortVideos Date_getTime l).
Proof.
  unfold sortVideos, js_sort.
  induction l as [|x r IH]; simpl; [constructor |].
  now apply sort_insert_sorted.
Qed.

Lemma newer_or_same_trans (a b c : Video) :
  newer a b -> newer b c -> newer a c.
Proof.
  intros (ta & tb & Ha & Hb & Hab) (tb' & tc & Hb' & Hc & Hbc).
  exists ta, tc. repeat split; auto. rewrite Hb in Hb'.
  injection Hb' as <-. lia.
Qed.

Lemma dated_not_older (a b : Video) :
  has_date a -> has_date b -> no_older a b -> newer a b.
Proof.
  unfold dated, not_older, newer_or_same.
  intros [ta Ha] [tb Hb]. rewrite Ha, Hb. intros H.
  exists ta, tb. auto.
Qed.

Lemma sorted_dated (l : list Video) :
  Forall has_date l -> Sorted no_older l ->
  StronglySorted newer l.
Proof.
  intros Hd Hs. apply Sorted_StronglySorted.
  - intros a b c. apply newer_or_same_trans.
  - induction Hs as [|x r Hr IH Hhd]; constructor.
    + apply IH. now inversion Hd.
    + inversion Hd as [|? ? Hx Hrd]; subst.
      destruct Hhd as [|y r' Hxy]; constructor.
      apply dated_not_older; auto. now inversion Hrd.
Qed.

(** C2: when listing the metadata namespace or the video namespace
    throws, [getVideos] answers [success: true], with no error and the
    state untouched, and its list holds exactly the records of the
    in-memory table, the one that [getVideoById] finds under each key,
    ordered by the comparator: neighbours are never in the wrong order
    and, when every [uploadedAt] can be read as a date, the list is in
    descending order of upload date (every record at least as recent as
    all that follow it). *)
Theorem getVideos_listing_failure (s : Storage) (clock : nat -> Z)
    (st : State) :
  map_ok (videos st) ->
  listAll_metadata s = None \/ listAll_videos s = None ->
  exists vs,
    getVideos Date_getTime (Available s) clock st
      = (mkResult true None (Some vs), st)
    /\ Permutation vs
         (omap (fun id => data (getVideoById id st))
               (JsMap.keys (videos st)))
    /\ Sorted no_older vs
    /\ (Forall has_date vs ->
        StronglySorted newer vs).
Proof.
  intros Hok Hfail.
  exists (sortVideos Date_getTime (snapshot (heap st) (videos st))).
  split; [| split; [| split]].
  - unfold getVideos, reconcile.
    destruct Hfail as [Hm | Hv]; [now rewrite Hm |].
    destruct (listAll_metadata s) as [metadataList|]; [| reflexivity].
    destruct (fold_left indexMetadata metadataList (heap st, JsMap.empty)).
    now rewrite Hv.
  - rewrite <- (snapshot_lookups st Hok). apply js_sort_perm.
  - apply sortVideos_sorted.
  - intros Hd. apply sorted_dated; [exact Hd | apply sortVideos_sorted].
Qed.

End SortFacts.

(** ** Maps and the heap *)

Module MapFacts.

Lemma get_set_eq (k : string) (x : loc) (m : JsMap.t) :
  JsMap.get k (JsMap.set k x m) = Some x.
Proof.
  induction m as [|[k' x'] r IH]; simpl.
  - now rewrite String.eqb_refl.
  - destruct (String.eqb k' k) eqn:E; simpl.
    + now rewrite String.eqb_refl.
    + now rewrite E.
Qed.

Lemma get_set_ne (k k' : string) (x : loc) (m : JsMap.t) :
  k <> k' -> JsMap.get k' (JsMap.set k x m) = JsMap.get k' m.
Proof.
  intros Hne. induction m as [|[k0 x0] r IH]; simpl.
  - destruct (String.eqb_spec k k'); [contradiction | reflexivity].
  - destruct (String.eqb_spec k0 k) as [->|Hk]; simpl.
    + destruct (String.eqb_spec k k'); [contradiction | reflexivity].
    + now rewrite IH.
Qed.

Lemma has_get (k : string) (m : JsMap.t) :
  JsMap.has k m = true <-> exists x, JsMap.get k m = Some x.
Proof.
  unfold JsMap.has. destruct (JsMap.get k m) as [x|].
  - split; eauto.
  - split; [discriminate | intros [x H]; discriminate].
Qed.

Lemma has_false (k : string) (m : JsMap.t) :
  JsMap.has k m = false <-> JsMap.get k m = None.
Proof.
  unfold JsMap.has. destruct (JsMap.get k m); split; congruence.
Qed.

Lemma modify_fresh (f : Video -> Video) (h : Heap) (v : Video) :
  modify f (List.length h) (h ++ [v])%list = (h ++ [f v])%list.
Proof.
  unfold modify. induction h as [|a r IH]; simpl; [reflexivity |].
  now f_equal.
Qed.

End MapFacts.

(** ** Resolution of one video file *)

Module ResolveFacts.
Import MapFacts.

Lemma resolve_adopts (s : Storage) (metadataByUrl : JsMap.t)
    (id fileName url cleanUrl : string) (metadata : FullMetadata)
    (h : Heap) (table : JsMap.t) :
  adopts s metadataByUrl id fileName url cleanUrl metadata h table
    (tier_of s metadataByUrl table id cleanUrl)
    (resolve s metadataByUrl id fileName url cleanUrl metadata h table).
Proof.
  unfold tier_of, first_match, resolve, priority1, priority2, priority3,
    priority4, JsMap.has.
  destruct (JsMap.get cleanUrl metadataByUrl) as [video|] eqn:Ha; cbn.
  - exact (adopts_by_url _ _ _ _ _ _ _ _ _ video Ha).
  - destruct (loadVideoDataFromStorage s id) as [saved|] eqn:Hb; cbn.
    + rewrite modify_fresh.
      exact (adopts_by_id _ _ _ _ _ _ _ _ _ saved Hb).
    + destruct (JsMap.get id table) as [video|] eqn:Hc; cbn.
      * exact (adopts_by_cache _ _ _ _ _ _ _ _ _ video Hc).
      * apply adopts_synthesized.
Qed.

(** C3: the record adopted for a video file is the one of the first tier
    that applies, in the order (a) metadata indexed under the canonical
    URL, (b) the document [{id}.json], (c) the in-memory table, (d) a
    synthesized record.  In particular a file whose canonical URL is in
    the index adopts the indexed metadata record, refreshed with the
    file's id, URL and size, even when the table holds another record
    under its id. *)
Theorem resolve_first_match (s : Storage) (metadataByUrl : JsMap.t)
    (id fileName url cleanUrl : string) (metadata : FullMetadata)
    (h : Heap) (table : JsMap.t) :
  adopts s metadataByUrl id fileName url cleanUrl metadata h table
    (tier_of s metadataByUrl table id cleanUrl)
    (resolve s metadataByUrl id fileName url cleanUrl metadata h table)
  /\ forall byUrl cached : loc,
      JsMap.get cleanUrl metadataByUrl = Some byUrl ->
      JsMap.get id table = Some cached ->
      cached <> byUrl ->
      tier_of s metadataByUrl table id cleanUrl = ByUrl
      /\ resolve s metadataByUrl id fileName url cleanUrl metadata h table
         = (byUrl, modify (refresh_all id url metadata) byUrl h,
            JsMap.set id byUrl table).
Proof.
  split; [apply resolve_adopts |].
  intros byUrl cached Ha _ _.
  unfold tier_of, first_match, resolve, priority1, JsMap.has.
  now rewrite Ha.
Qed.

End ResolveFacts.

(** ** Merging into [videoMap] *)

Module MergeFacts.
Import MapFacts.

Lemma addToMap_absent (h : Heap) (id : string) (video : loc)
    (videoMap : JsMap.t) :
  JsMap.get id videoMap = None ->
  addToMap h id video videoMap = JsMap.set id video videoMap.
Proof. intros H. unfold addToMap. now rewrite H. Qed.

Lemma addToMap_present (h : Heap) (id : string) (video existing : loc)
    (videoMap : JsMap.t) :
  JsMap.get id videoMap = Some existing ->
  addToMap h id video videoMap
  = if text_at h video && negb (text_at h existing)
    then JsMap.set id video videoMap else videoMap.
Proof. intros H. unfold addToMap. now rewrite H. Qed.

(** C4: merging a record into the result map under an id that is already
    there replaces the entry when the incoming record has transcript text
    and the existing one has none, and keeps the first-seen entry
    otherwise.  So of two records merged under one fresh id, exactly one
    of which has transcript text, the map ends with the one that has it,
    in whichever order they come. *)
Theorem addToMap_prefers_text (h h' : Heap) (id : string)
    (video existing withText plain : loc) (videoMap : JsMap.t) :
  (JsMap.get id videoMap = Some existing ->
   JsMap.get id (addToMap h id video videoMap)
   = Some (if text_at h video && negb (text_at h existing)
           then video else existing))
  /\ (JsMap.get id videoMap = None ->
      text_at h withText = true ->
      text_at h plain = false ->
      JsMap.get id (addToMap h id plain (addToMap h' id withText videoMap))
      = Some withText
      /\ JsMap.get id
           (addToMap h id withText (addToMap h' id plain videoMap))
         = Some withText).
Proof.
  split.
  - intros Hex. rewrite (addToMap_present _ _ _ existing) by exact Hex.
    destruct (text_at h video && negb (text_at h existing)).
    + apply get_set_eq.
    + exact Hex.
  - intros Habs Hw Hp. rewrite !(addToMap_absent h') by exact Habs. split.
    + rewrite (addToMap_present _ _ _ withText) by apply get_set_eq.
      rewrite Hp. simpl. apply get_set_eq.
    + rewrite (addToMap_present _ _ _ plain) by apply get_set_eq.
      rewrite Hw, Hp. simpl. apply get_set_eq.
Qed.

End MergeFacts.

(** ** Invariants of the loop over the video files *)

Module LoopFacts.
Import MapFacts ResolveFacts.

Lemma bounded_mono (n n' : nat) (m : JsMap.t) :
  (n <= n')%nat -> bounded n m -> bounded n' m.
Proof.
  unfold bounded. intros Hn H.
  eapply Forall_impl; [exact H |]. intros l Hl. simpl in Hl. lia.
Qed.

Lemma bounded_get (n : nat) (m : JsMap.t) (k : string) (l : loc) :
  bounded n m -> JsMap.get k m = Some l -> (l < n)%nat.
Proof.
  unfold bounded, JsMap.values.
  induction m as [|[k' x] r IH]; simpl; [discriminate |].
  intros Hb. inversion Hb as [|? ? Hx Hr]; subst.
  destruct (String.eqb k' k); [intros [= <-]; exact Hx | now apply IH].
Qed.

Lemma bounded_set (n : nat) (m : JsMap.t) (k : string) (l : loc) :
  bounded n m -> (l < n)%nat -> bounded n (JsMap.set k l m).
Proof.
  unfold bounded, JsMap.values. intros Hb Hl.
  induction m as [|[k' x] r IH]; simpl.
  - now repeat constructor.
  - inversion Hb as [|? ? Hx Hr]; subst.
    destruct (String.eqb k' k); simpl; constructor; auto.
Qed.

Lemma bounded_addToMap (n : nat) (h : Heap) (id : string) (l : loc)
    (m : JsMap.t) :
  bounded n m -> (l < n)%nat -> bounded n (addToMap h id l m).
Proof.
  intros Hb Hl. unfold addToMap.
  destruct (JsMap.get id m); [| now apply bounded_set].
  destruct (text_at h l && negb (text_at h n0)); [| exact Hb].
  now apply bounded_set.
Qed.

Lemma length_modify (f : Video -> Video) (l : loc) (h : Heap) :
  List.length (modify f l h) = List.length h.
Proof. unfold modify. apply length_alter. Qed.

Lemma length_snoc (h : Heap) (v : Video) :
  List.length (h ++ [v])%list = S (List.length h).
Proof. rewrite length_app. simpl. lia. Qed.

(** What one adoption does to the bounds. *)
Lemma adopts_bounded (s : Storage) (metadataByUrl : JsMap.t)
    (id fileName url cleanUrl : string) (metadata : FullMetadata)
    (h : Heap) (table : JsMap.t) (t : Tier) (video : loc) (h' : Heap)
    (table' : JsMap.t) :
  adopts s metadataByUrl id fileName url cleanUrl metadata h table t
         (video, h', table') ->
  bounded (List.length h) metadataByUrl ->
  bounded (List.length h) table ->
  (List.length h <= List.length h')%nat
  /\ (video < List.length h')%nat
  /\ bounded (List.length h') table'.
Proof.
  intros Had Hidx Htab.
  inversion Had as [v Hget | saved Hload | v Hget |]; subst.
  - pose proof (bounded_get _ _ _ _ Hidx Hget) as Hlt.
    rewrite length_modify. repeat split; auto.
    now apply bounded_set.
  - rewrite length_snoc. repeat split; try lia.
    apply bounded_set; [| lia]. now apply (bounded_mono (List.length h)); [lia |].
  - pose proof (bounded_get _ _ _ _ Htab Hget) as Hlt.
    rewrite length_modify. repeat split; auto.
  - rewrite length_snoc. repeat split; try lia.
    apply bounded_set; [| lia]. now apply (bounded_mono (List.length h)); [lia |].
Qed.

Lemma processFile_ok (s : Storage) (metadataByUrl : JsMap.t)
    (clock : nat -> Z) (lp : Loop) (fileName url : string)
    (metadata : FullMetadata) :
  loop_ok metadataByUrl lp ->
  let lp' := processFile s metadataByUrl clock lp fileName url metadata in
  (List.length (lp_heap lp) <= List.length (lp_heap lp'))%nat
  /\ loop_ok metadataByUrl lp'.
Proof.
  intros (Hidx & Htab & Hvm). unfold processFile.
  pose proof (resolve_adopts s metadataByUrl
                (deriveId (clock (lp_ticks lp)) fileName) fileName url
                (JsString.split_head "?" url) metadata (lp_heap lp)
                (lp_videos lp)) as Had.
  destruct (resolve _ _ _ _ _ _ _ _ _) as [[video h] table].
  destruct (adopts_bounded _ _ _ _ _ _ _ _ _ _ _ _ _ Had Hidx Htab)
    as (Hle & Hv & Htab').
  cbn. split; [exact Hle |]. unfold loop_ok; cbn. repeat split.
  - now apply (bounded_mono (List.length (lp_heap lp))).
  - exact Htab'.
  - apply bounded_addToMap; [| exact Hv].
    now apply (bounded_mono (List.length (lp_heap lp))).
Qed.

Lemma processItem_ok (s : Storage) (metadataByUrl : JsMap.t)
    (clock : nat -> Z) (lp : Loop) (itemRef : VideoItem) :
  loop_ok metadataByUrl lp ->
  let lp' := processItem s metadataByUrl clock lp itemRef in
  (List.length (lp_heap lp) <= List.length (lp_heap lp'))%nat
  /\ loop_ok metadataByUrl lp'.
Proof.
  intros Hok. unfold processItem.
  destruct (vi_downloadURL itemRef) as [url|]; [| now split].
  destruct (vi_metadata itemRef) as [metadata|]; [| now split].
  now apply processFile_ok.
Qed.

Lemma processItems_ok (s : Storage) (metadataByUrl : JsMap.t)
    (clock : nat -> Z) (items : list VideoItem) (lp : Loop) :
  loop_ok metadataByUrl lp ->
  let lp' := fold_left (processItem s metadataByUrl clock) items lp in
  (List.length (lp_heap lp) <= List.length (lp_heap lp'))%nat
  /\ loop_ok metadataByUrl lp'.
Proof.
  revert lp. induction items as [|it rest IH]; intros lp Hok; simpl.
  - now split.
  - destruct (processItem_ok s metadataByUrl clock lp it Hok) as [Hle Hok'].
    destruct (IH _ Hok') as [Hle' Hok'']. split; [lia | exact Hok''].
Qed.

(** The index: its objects are appended to the heap. *)
Lemma indexMetadata_ok (docs : list MetaItem) (h : Heap) (m : JsMap.t) :
  bounded (List.length h) m ->
  let '(h', m') := fold_left indexMetadata docs (h, m) in
  (List.length h <= List.length h')%nat /\ bounded (List.length h') m'.
Proof.
  revert h m. induction docs as [|mi rest IH]; intros h m Hb; simpl.
  - now split.
  - unfold indexMetadata at 2. destruct (mi_json mi) as [v|]; simpl.
    + specialize (IH (h ++ [v])%list
                     (JsMap.set (JsString.split_head "?" (v_url v))
                                (List.length h) m)).
      destruct (fold_left indexMetadata rest _) as [h' m'].
      rewrite length_snoc in IH.
      destruct IH as [Hle Hb'].
      * apply bounded_set; [| lia].
        now apply (bounded_mono (List.length h)); [lia |].
      * split; [lia | exact Hb'].
    + now apply IH.
Qed.





End LoopFacts.

(** ** Well-formed states are the reachable ones *)

Module StateFacts.
Import MapFacts LoopFacts.

Lemma wf_empty : wf_state (mkState [] JsMap.empty).
Proof. constructor. Qed.

Lemma saveVideoMetadata_wf (now : Z) (video : Video) (st : State) :
  wf_state st -> wf_state (snd (saveVideoMetadata now video st)).
Proof.
  unfold wf_state, saveVideoMetadata. intros H. cbn.
  rewrite length_snoc. apply bounded_set; [| lia].
  now apply (bounded_mono (List.length (heap st))); [lia |].
Qed.

Lemma updateVideoStatus_wf (videoId : string) (status : Status)
    (transcription : option Transcription) (st : State) :
  wf_state st ->
  wf_state (snd (updateVideoStatus videoId status transcription st)).
Proof.
  unfold wf_state, updateVideoStatus. intros H.
  destruct (JsMap.get videoId (videos st)) as [l|] eqn:E; [| exact H].
  pose proof (bounded_get _ _ _ _ H E) as Hl.
  destruct transcription; cbn; rewrite ?length_modify;
    now apply bounded_set.
Qed.

Lemma bounded_delete (n : nat) (k : string) (m : JsMap.t) :
  bounded n m -> bounded n (fst (JsMap.delete k m)).
Proof.
  unfold bounded, JsMap.values.
  induction m as [|[k' x] r IH]; simpl; intros H; [constructor |].
  inversion H as [|? ? Hx Hr]; subst.
  destruct (String.eqb k' k); [exact Hr |].
  specialize (IH Hr). destruct (JsMap.delete k r) as [r' b]; simpl in *.
  now constructor.
Qed.

Lemma deleteVideo_wf (videoId : string) (st : State) :
  wf_state st -> wf_state (snd (deleteVideo videoId st)).
Proof.
  unfold wf_state, deleteVideo. intros H.
  pose proof (bounded_delete _ videoId _ H) as Hd.
  destruct (JsMap.delete videoId (videos st)) as [m b]. exact Hd.
Qed.

Lemma reconcile_wf (s : Storage) (clock : nat -> Z) (st : State)
    (lp : Loop) :
  wf_state st -> reconcile s clock st = Some lp ->
  bounded (List.length (lp_heap lp)) (lp_videos lp)
  /\ bounded (List.length (lp_heap lp)) (lp_videoMap lp).
Proof.
  unfold wf_state, reconcile. intros Hwf.
  destruct (listAll_metadata s) as [docs|]; [| discriminate].
  pose proof (indexMetadata_ok docs (heap st) JsMap.empty) as Hidx.
  destruct (fold_left indexMetadata docs _) as [h idx].
  destruct Hidx as [Hle Hidx]; [constructor |].
  destruct (listAll_videos s) as [items|]; [| discriminate].
  intros [= <-].
  destruct (processItems_ok s idx clock items
              (mkLoop h (videos st) JsMap.empty 0%nat))
    as [_ (_ & Htab & Hvm)]; [| now split].
  repeat split; cbn; [exact Hidx | | constructor].
  now apply (bounded_mono (List.length (heap st))).
Qed.

Lemma getVideos_wf (Date_getTime : string -> option Z) (fb : Firebase)
    (clock : nat -> Z) (st : State) :
  wf_state st -> wf_state (snd (getVideos Date_getTime fb clock st)).
Proof.
  intros Hwf. unfold getVideos. destruct fb as [e|s]; [exact Hwf |].
  destruct (reconcile s clock st) as [lp|] eqn:R; [| exact Hwf].
  now destruct (reconcile_wf s clock st lp Hwf R).
Qed.

End StateFacts.

(** ** Failing items are skipped, and only they *)

Module FailureFacts.
Import MapFacts ResolveFacts LoopFacts.













Lemma get_in_values (k : string) (l : loc) (m : JsMap.t) :
  JsMap.get k m = Some l -> In l (JsMap.values m).
Proof.
  unfold JsMap.values. induction m as [|[k' x] r IH]; simpl;
    [discriminate |].
  destruct (String.eqb k' k); [intros [= ->]; now left |].
  intros H. right. now apply IH.
Qed.

Lemma snapshot_member (h : Heap) (m : JsMap.t) (k : string) (l : loc)
    (v : Video) :
  JsMap.get k m = Some l -> deref h l = Some v -> In v (snapshot h m).
Proof.
  intros Hget Hv. unfold snapshot.
  apply list_elem_of_In, list_elem_of_omap.
  exists l. split; [| exact Hv].
  now apply list_elem_of_In, (get_in_values k).
Qed.

Lemma deref_bounded (h : Heap) (l : loc) :
  (l < List.length h)%nat -> exists v, deref h l = Some v.
Proof.
  intros Hl. unfold deref.
  destruct (lookup_lt_is_Some_2 h l Hl) as [v Hv]. now exists v.
Qed.

End FailureFacts.

Section Isolation.
Import MapFacts LoopFacts FailureFacts.

Variable Date_getTime : string -> option Z.


End Isolation.

(** ** The effect of the loop when ids are distinct *)

Module EffectFacts.
Import MapFacts ResolveFacts MergeFacts LoopFacts FailureFacts TableFacts.

Lemma processItems_resolved (s : Storage) (metadataByUrl : JsMap.t)
    (clock : nat -> Z) (items : list VideoItem) (lp : Loop) :
  fold_left (processItem s metadataByUrl clock) items lp
  = fold_left (processResolved s metadataByUrl clock)
              (resolved_files items) lp.
Proof.
  revert lp. induction items as [|it rest IH]; intros lp; simpl;
    [reflexivity |].
  rewrite IH. unfold resolved_files; simpl.
  unfold processItem, resolved.
  destruct (vi_downloadURL it); [| reflexivity].
  destruct (vi_metadata it); reflexivity.
Qed.

Lemma deriveId_truthy (now : Z) (fileName : string) :
  JsString.truthy (JsString.split_head "_" fileName) = true ->
  deriveId now fileName = JsString.split_head "_" fileName.
Proof. intros H. unfold deriveId, JsString.or_else. now rewrite H. Qed.

Lemma has_agree (k : string) (m m' : JsMap.t) :
  JsMap.get k m = JsMap.get k m' -> JsMap.has k m = JsMap.has k m'.
Proof. unfold JsMap.has. now intros ->. Qed.

Lemma tier_of_agree (s : Storage) (idx table table' : JsMap.t)
    (id cleanUrl : string) :
  JsMap.get id table = JsMap.get id table' ->
  tier_of s idx table id cleanUrl = tier_of s idx table' id cleanUrl.
Proof. intros H. unfold tier_of. now rewrite (has_agree _ _ _ H). Qed.

Lemma keys_set_absent (k : string) (x : loc) (m : JsMap.t) :
  JsMap.get k m = None ->
  JsMap.keys (JsMap.set k x m) = (JsMap.keys m ++ [k])%list.
Proof.
  unfold JsMap.keys. induction m as [|[k' x'] r IH]; simpl;
    [reflexivity |].
  destruct (String.eqb k' k); [discriminate |].
  intros H. simpl. now rewrite IH.
Qed.

Lemma deref_snoc_old (h : Heap) (x v : Video) (l : loc) :
  deref h l = Some v -> deref (h ++ [x])%list l = Some v.
Proof. unfold deref. intros H. now apply lookup_app_l_Some. Qed.

Lemma deref_snoc_new (h : Heap) (x : Video) :
  deref (h ++ [x])%list (List.length h) = Some x.
Proof. unfold deref. apply list_lookup_middle. reflexivity. Qed.

Lemma deref_lt (h : Heap) (l : loc) (v : Video) :
  deref h l = Some v -> (l < List.length h)%nat.
Proof. unfold deref. apply lookup_lt_Some. Qed.

(** One turn, for a file whose id is not yet in [videoMap]. *)
Lemma step_effect (s : Storage) (idx : JsMap.t) (clock : nat -> Z)
    (table : JsMap.t) (f : ResolvedFile) (lp : Loop) :
  JsString.truthy (file_id f) = true ->
  JsMap.get (file_id f) (lp_videos lp) = JsMap.get (file_id f) table ->
  JsMap.get (file_id f) (lp_videoMap lp) = None ->
  let lp1 := processResolved s idx clock lp f in
  (forall l v, deref (lp_heap lp) l = Some v ->
     deref (lp_heap lp1) l = Some (file_write s idx table l v f))
  /\ (exists l,
        JsMap.get (file_id f) (lp_videoMap lp1) = Some l
        /\ JsMap.get (file_id f) (lp_videos lp1) = Some l
        /\ placed s idx table f (List.length (lp_heap lp)) (lp_heap lp1) l)
  /\ JsMap.keys (lp_videoMap lp1)
     = (JsMap.keys (lp_videoMap lp) ++ [file_id f])%list
  /\ (forall k, k <> file_id f ->
        JsMap.get k (lp_videoMap lp1) = JsMap.get k (lp_videoMap lp)
        /\ JsMap.get k (lp_videos lp1) = JsMap.get k (lp_videos lp)).
Proof.
  intros Hid Hagree Hfresh.
  unfold processResolved, processFile.
  rewrite (deriveId_truthy _ _ Hid). fold (file_id f). fold (file_cleanUrl f).
  pose proof (resolve_adopts s idx (file_id f) (rf_name f) (rf_url f)
                (file_cleanUrl f) (rf_metadata f) (lp_heap lp)
                (lp_videos lp)) as Had.
  rewrite (tier_of_agree _ _ _ table _ _ Hagree) in Had.
  destruct (resolve _ _ _ _ _ _ _ _ _) as [[video h] tab].
  cbn [lp_heap lp_videos lp_videoMap].
  rewrite (addToMap_absent _ _ _ _ Hfresh).
  unfold file_write, placed.
  destruct (tier_of s idx table (file_id f) (file_cleanUrl f)) eqn:Htier;
    inversion Had as [v Hget E1 E2 | saved Hload E1 E2 | v Hget E1 E2
                      | E1 E2]; subst; clear Had.
  - (* by URL *)
    rewrite Hget. repeat split.
    + intros l v Hv. destruct (Nat.eqb_spec video l) as [->|Hne].
      * now apply deref_modify_eq.
      * now rewrite deref_modify_ne.
    + exists video. repeat split; apply get_set_eq.
    + now apply keys_set_absent.
    + now apply get_set_ne.
    + now apply get_set_ne.
  - (* by id *)
    repeat split.
    + intros l v Hv. now apply deref_snoc_old.
    + exists (List.length (lp_heap lp)).
      repeat split; try apply get_set_eq; [lia |].
      exists saved. split; [exact Hload | apply deref_snoc_new].
    + now apply keys_set_absent.
    + now apply get_set_ne.
    + now apply get_set_ne.
  - (* by the table *)
    rewrite <- Hagree, Hget. repeat split.
    + intros l v Hv. destruct (Nat.eqb_spec video l) as [->|Hne].
      * now apply deref_modify_eq.
      * now rewrite deref_modify_ne.
    + exists video. repeat split. apply get_set_eq.
    + now apply keys_set_absent.
    + now apply get_set_ne.
  - (* synthesized *)
    repeat split.
    + intros l v Hv. now apply deref_snoc_old.
    + exists (List.length (lp_heap lp)).
      repeat split; try apply get_set_eq; [lia | apply deref_snoc_new].
    + now apply keys_set_absent.
    + now apply get_set_ne.
    + now apply get_set_ne.
Qed.

Lemma fold_fixed {A B : Type} (g : A -> B -> A) (xs : list B) (v : A) :
  (forall x, In x xs -> g v x = v) -> fold_left g xs v = v.
Proof.
  induction xs as [|x r IH]; simpl; [reflexivity |].
  intros H. rewrite (H x) by now left. apply IH.
  intros y Hy. apply H. now right.
Qed.

Lemma fold_ext {A B : Type} (g g' : A -> B -> A) (xs : list B) (v : A) :
  (forall x a, In x xs -> g a x = g' a x) ->
  fold_left g xs v = fold_left g' xs v.
Proof.
  revert v. induction xs as [|x r IH]; intros v H; simpl; [reflexivity |].
  rewrite (H x v) by now left. apply IH.
  intros y a Hy. apply H. now right.
Qed.

(** A turn writes nothing to an object that neither the index nor the
    table of the loop's start refers to. *)
Lemma file_write_elsewhere (s : Storage) (idx table : JsMap.t) (l : loc)
    (v : Video) (f : ResolvedFile) :
  (forall l', JsMap.get (file_cleanUrl f) idx = Some l' -> l' <> l) ->
  (forall l', JsMap.get (file_id f) table = Some l' -> l' <> l) ->
  file_write s idx table l v f = v.
Proof.
  intros Hidx Htab. unfold file_write.
  destruct (tier_of s idx table (file_id f) (file_cleanUrl f));
    try reflexivity.
  - destruct (JsMap.get (file_cleanUrl f) idx) as [l'|]; [| reflexivity].
    destruct (Nat.eqb_spec l' l) as [E|E]; [| reflexivity].
    now destruct (Hidx l' eq_refl).
  - destruct (JsMap.get (file_id f) table) as [l'|]; [| reflexivity].
    destruct (Nat.eqb_spec l' l) as [E|E]; [| reflexivity].
    now destruct (Htab l' eq_refl).
Qed.

Lemma placed_mono (s : Storage) (idx table : JsMap.t) (f : ResolvedFile)
    (n n' : nat) (h : Heap) (l : loc) :
  (n <= n')%nat -> placed s idx table f n' h l -> placed s idx table f n h l.
Proof.
  intros Hn. unfold placed.
  destruct (tier_of s idx table (file_id f) (file_cleanUrl f)); auto.
  - intros [Hl H]. split; [lia | exact H].
  - intros [Hl H]. split; [lia | exact H].
Qed.

(** A placement survives when the fresh objects keep their values. *)
Lemma placed_keep (s : Storage) (idx table : JsMap.t) (f : ResolvedFile)
    (n : nat) (h h' : Heap) (l : loc) :
  (forall v, (n <= l)%nat -> deref h l = Some v -> deref h' l = Some v) ->
  placed s idx table f n h l -> placed s idx table f n h' l.
Proof.
  intros Hkeep. unfold placed.
  destruct (tier_of s idx table (file_id f) (file_cleanUrl f)); auto.
  - intros [Hl (saved & Hload & Hv)]. split; [exact Hl |].
    exists saved. split; [exact Hload | now apply Hkeep].
  - intros [Hl Hv]. split; [exact Hl | now apply Hkeep].
Qed.

Lemma processResolved_ok (s : Storage) (idx : JsMap.t) (clock : nat -> Z)
    (lp : Loop) (f : ResolvedFile) :
  loop_ok idx lp ->
  (List.length (lp_heap lp)
   <= List.length (lp_heap (processResolved s idx clock lp f)))%nat
  /\ loop_ok idx (processResolved s idx clock lp f).
Proof. intros H. now apply processFile_ok. Qed.

(** The loop over files with distinct ids: what it writes to the objects
    that existed, where it puts each record, and the keys it adds. *)
Lemma loop_effect (s : Storage) (idx : JsMap.t) (clock : nat -> Z)
    (table : JsMap.t) (fs : list ResolvedFile) :
  forall lp : Loop,
  List.NoDup (map file_id fs) ->
  Forall (fun f => JsString.truthy (file_id f) = true) fs ->
  loop_ok idx lp ->
  (forall f, In f fs ->
     JsMap.get (file_id f) (lp_videos lp) = JsMap.get (file_id f) table) ->
  (forall f, In f fs -> JsMap.get (file_id f) (lp_videoMap lp) = None) ->
  let lp' := fold_left (processResolved s idx clock) fs lp in
  (forall l v, deref (lp_heap lp) l = Some v ->
     deref (lp_heap lp') l
     = Some (fold_left (file_write s idx table l) fs v))
  /\ (forall f, In f fs ->
        exists l,
          JsMap.get (file_id f) (lp_videoMap lp') = Some l
          /\ JsMap.get (file_id f) (lp_videos lp') = Some l
          /\ placed s idx table f (List.length (lp_heap lp))
                    (lp_heap lp') l)
  /\ JsMap.keys (lp_videoMap lp')
     = (JsMap.keys (lp_videoMap lp) ++ map file_id fs)%list
  /\ (forall k, ~ In k (map file_id fs) ->
        JsMap.get k (lp_videoMap lp') = JsMap.get k (lp_videoMap lp)
        /\ JsMap.get k (lp_videos lp') = JsMap.get k (lp_videos lp)).
Proof.
  induction fs as [|f rest IH]; intros lp Hnd Hids Hok Hagree Hfresh;
    cbn zeta; simpl fold_left.
  - repeat split; auto.
    + intros f [].
    + simpl. now rewrite app_nil_r.
  - inversion Hnd as [|? ? Hnotin Hnd']; subst.
    inversion Hids as [|? ? Hid Hids']; subst.
    destruct (step_effect s idx clock table f lp Hid
                (Hagree f (or_introl eq_refl))
                (Hfresh f (or_introl eq_refl)))
      as (S1 & (l0 & S2vm & S2tab & S2pl) & S3 & S4).
    destruct (processResolved_ok s idx clock lp f Hok) as [Hle Hok1].
    set (lp1 := processResolved s idx clock lp f) in *.
    assert (Hne : forall g, In g rest -> file_id g <> file_id f).
    { intros g Hg E. apply Hnotin. rewrite <- E. now apply in_map. }
    destruct (IH lp1 Hnd' Hids' Hok1) as (L1 & L2 & L3 & L4).
    { intros g Hg. rewrite <- (Hagree g (or_intror Hg)).
      now apply S4, Hne. }
    { intros g Hg. rewrite <- (Hfresh g (or_intror Hg)).
      now apply S4, Hne. }
    assert (Hquiet : forall l v g, (List.length (lp_heap lp) <= l)%nat ->
               In g rest -> file_write s idx table l v g = v).
    { intros l v g Hl Hg. apply file_write_elsewhere.
      - intros l' Hl'. destruct Hok as (Hidx & _ & _).
        pose proof (bounded_get _ _ _ _ Hidx Hl'). lia.
      - intros l' Hl'. destruct Hok as (_ & Htab & _).
        rewrite <- (Hagree g (or_intror Hg)) in Hl'.
        pose proof (bounded_get _ _ _ _ Htab Hl'). lia. }
    repeat split.
    + intros l v Hv. now apply L1, S1.
    + intros g [<- | Hg].
      * exists l0. destruct (L4 (file_id f) Hnotin) as [E1 E2].
        rewrite E1, E2. repeat split; auto.
        apply (placed_keep _ _ _ _ _ (lp_heap lp1)); [| exact S2pl].
        intros v Hl Hv. rewrite (L1 _ _ Hv). f_equal.
        apply fold_fixed. intros g Hg. now apply Hquiet.
      * destruct (L2 g Hg) as (l & E1 & E2 & Hpl).
        exists l. repeat split; auto.
        now apply (placed_mono _ _ _ _ _ (List.length (lp_heap lp1))).
    + rewrite L3, S3. simpl. now rewrite <- app_assoc.
    + destruct (L4 k) as [E1 _]; [intros Hin; apply H; now right |].
      rewrite E1.
      apply S4. intros ->. apply H. now left.
    + destruct (L4 k) as [_ E2]; [intros Hin; apply H; now right |].
      rewrite E2.
      apply S4. intros ->. apply H. now left.
Qed.

(** Writes that only set the URL: the last one decides. *)
Lemma fold_set_url_shape {B : Type} (g : Video -> B -> Video)
    (u : B -> string) (xs : list B) :
  (forall x, In x xs ->
     (forall v, g v x = v) \/ (forall v, g v x = set_url (u x) v)) ->
  (forall v, fold_left g xs v = v)
  \/ (exists w, forall v, fold_left g xs v = set_url w v).
Proof.
  induction xs as [|x r IH]; intros H; simpl; [now left |].
  destruct IH as [Hid | [w Hw]].
  - intros y Hy. apply H. now right.
  - destruct (H x (or_introl eq_refl)) as [Hx | Hx].
    + left. intros v. now rewrite Hx, Hid.
    + right. exists (u x). intros v. now rewrite Hx, Hid.
  - right. exists w. intros v. rewrite Hw.
    destruct (H x (or_introl eq_refl)) as [Hx | Hx]; now rewrite Hx.
Qed.

Lemma fold_set_url_idem {B : Type} (g : Video -> B -> Video)
    (u : B -> string) (xs : list B) (v : Video) :
  (forall x, In x xs ->
     (forall v, g v x = v) \/ (forall v, g v x = set_url (u x) v)) ->
  fold_left g xs (fold_left g xs v) = fold_left g xs v.
Proof.
  intros H. destruct (fold_set_url_shape g u xs H) as [Hid | [w Hw]].
  - now rewrite !Hid.
  - now rewrite !Hw.
Qed.

Lemma get_absent_key (k : string) (m : JsMap.t) :
  ~ In k (JsMap.keys m) -> JsMap.get k m = None.
Proof.
  unfold JsMap.keys. induction m as [|[k' x] r IH]; simpl; [reflexivity |].
  intros H. destruct (String.eqb_spec k' k) as [E|E].
  - exfalso. apply H. now left.
  - apply IH. intros Hin. apply H. now right.
Qed.

End EffectFacts.

(** ** Two runs over the same storage *)

Section TwoRuns.
Import MapFacts ResolveFacts MergeFacts LoopFacts FailureFacts TableFacts
       EffectFacts.

Variable s : Storage.
Variable fs : list ResolvedFile.

(** First run: index [idx1], table [C1] and heap [h1] when the loop
    starts, heap [H1] when it ends; [n0] is the size of the heap before
    the index is built.  Second run: [idx2], [C2], [h2], [H2]. *)
Variables idx1 C1 idx2 C2 : JsMap.t.
Variables h1 H1 h2 H2 : Heap.
Variables n0 d : nat.

Hypothesis Hshift :
  forall k, JsMap.get k idx2 = (fun l => (l + d)%nat) <$> JsMap.get k idx1.
Hypothesis Hidx_lo : forall k l, JsMap.get k idx1 = Some l -> (n0 <= l)%nat.
Hypothesis Hidx_hi : bounded (List.length h1) idx1.
Hypothesis HC1 : bounded n0 C1.
Hypothesis HC2 : bounded (List.length H1) C2.
Hypothesis Hn0 : (n0 <= List.length h1)%nat.
Hypothesis Hd : List.length H1 = (n0 + d)%nat.
Hypothesis Hobjs :
  forall l, (n0 <= l)%nat -> deref h2 (l + d) = deref h1 l.
Hypothesis Hold : forall l v, deref H1 l = Some v -> deref h2 l = Some v.

(** The first run put the record of every file in the table. *)
Hypothesis Hplaced1 :
  forall f, In f fs ->
    exists l, JsMap.get (file_id f) C2 = Some l
              /\ placed s idx1 C1 f (List.length h1) H1 l.

(** What each loop does to the objects that exist when it starts. *)
Hypothesis Hheap1 :
  forall l v, deref h1 l = Some v ->
    deref H1 l = Some (fold_left (file_write s idx1 C1 l) fs v).
Hypothesis Hheap2 :
  forall l v, deref h2 l = Some v ->
    deref H2 l = Some (fold_left (file_write s idx2 C2 l) fs v).

Lemma tier_second (f : ResolvedFile) :
  In f fs ->
  tier_of s idx2 C2 (file_id f) (file_cleanUrl f)
  = match tier_of s idx1 C1 (file_id f) (file_cleanUrl f) with
    | ByUrl => ByUrl
    | ById => ById
    | _ => ByCache
    end.
Proof.
  intros Hf. destruct (Hplaced1 f Hf) as (l & Hl & _).
  unfold tier_of, first_match, JsMap.has. rewrite Hshift, Hl.
  destruct (JsMap.get (file_cleanUrl f) idx1); simpl; [reflexivity |].
  destruct (loadVideoDataFromStorage s (file_id f)); simpl;
    [reflexivity |].
  destruct (JsMap.get (file_id f) C1); reflexivity.
Qed.

(** An object of the index gets the same writes in both runs. *)
Lemma write_index_same (g : ResolvedFile) (l : loc) (v : Video) :
  In g fs -> (n0 <= l)%nat ->
  file_write s idx2 C2 (l + d) v g = file_write s idx1 C1 l v g.
Proof.
  intros Hg Hl. unfold file_write. rewrite (tier_second g Hg), Hshift.
  destruct (Hplaced1 g Hg) as (lg & Hlg & _).
  pose proof (bounded_get _ _ _ _ HC2 Hlg) as Hlg'.
  assert (Hmiss : (lg =? l + d)%nat = false)
    by (apply Nat.eqb_neq; lia).
  destruct (tier_of s idx1 C1 (file_id g) (file_cleanUrl g)).
  - destruct (JsMap.get (file_cleanUrl g) idx1) as [l'|]; simpl;
      [| reflexivity].
    destruct (Nat.eqb_spec l' l) as [->|Hne].
    + now rewrite Nat.eqb_refl.
    + destruct (Nat.eqb_spec (l' + d) (l + d)); [lia | reflexivity].
  - reflexivity.
  - rewrite Hlg, Hmiss.
    destruct (JsMap.get (file_id g) C1) as [l'|] eqn:E; [| reflexivity].
    pose proof (bounded_get _ _ _ _ HC1 E).
    destruct (Nat.eqb_spec l' l); [lia | reflexivity].
  - now rewrite Hlg, Hmiss.
Qed.

(** An object that existed before the first run gets the same writes in
    both runs. *)
Lemma write_old_same (g : ResolvedFile) (l : loc) (v : Video) :
  In g fs -> (l < n0)%nat ->
  file_write s idx2 C2 l v g = file_write s idx1 C1 l v g.
Proof.
  intros Hg Hl. unfold file_write. rewrite (tier_second g Hg), Hshift.
  destruct (Hplaced1 g Hg) as (lg & Hlg & Hpl). unfold placed in Hpl.
  destruct (tier_of s idx1 C1 (file_id g) (file_cleanUrl g)).
  - destruct (JsMap.get (file_cleanUrl g) idx1) as [l'|] eqn:E; simpl;
      [| reflexivity].
    pose proof (Hidx_lo _ _ E).
    destruct (Nat.eqb_spec (l' + d) l); [lia |].
    destruct (Nat.eqb_spec l' l); [lia | reflexivity].
  - reflexivity.
  - now rewrite Hlg, Hpl.
  - rewrite Hlg. destruct Hpl as [Hge _].
    destruct (Nat.eqb_spec lg l); [lia | reflexivity].
Qed.

(** In the first run such an object gets its URL set, or nothing. *)
Lemma write_old_shape (g : ResolvedFile) (l : loc) :
  (l < n0)%nat ->
  (forall v, file_write s idx1 C1 l v g = v)
  \/ (forall v, file_write s idx1 C1 l v g = set_url (rf_url g) v).
Proof.
  intros Hl. unfold file_write.
  destruct (tier_of s idx1 C1 (file_id g) (file_cleanUrl g));
    try (now left).
  - destruct (JsMap.get (file_cleanUrl g) idx1) as [l'|] eqn:E;
      [| now left].
    pose proof (Hidx_lo _ _ E).
    destruct (Nat.eqb_spec l' l); [lia | now left].
  - destruct (JsMap.get (file_id g) C1) as [l'|]; [| now left].
    destruct (l' =? l)%nat; [now right | now left].
Qed.

(** The record of a file is the same after the second run: [l1] is
    where the first run put it, [l2] where the second did. *)
Lemma same_record (f : ResolvedFile) (l1 l2 : loc) :
  In f fs ->
  JsMap.get (file_id f) C2 = Some l1 ->
  placed s idx1 C1 f (List.length h1) H1 l1 ->
  placed s idx2 C2 f (List.length h2) H2 l2 ->
  deref H2 l2 = deref H1 l1.
Proof.
  intros Hf Hl1 P1 P2. unfold placed in P1, P2.
  rewrite (tier_second f Hf) in P2.
  destruct (tier_of s idx1 C1 (file_id f) (file_cleanUrl f)).
  - (* by URL in both runs *)
    rewrite Hshift, P1 in P2. injection P2 as <-.
    pose proof (Hidx_lo _ _ P1) as Hlo.
    destruct (deref_bounded h1 l1 (bounded_get _ _ _ _ Hidx_hi P1))
      as [v0 Hv0].
    rewrite (Hheap1 _ _ Hv0).
    rewrite (Hheap2 (l1 + d)%nat v0) by (now rewrite Hobjs).
    f_equal. apply fold_ext. intros g a Hg.
    now apply write_index_same.
  - (* by id in both runs *)
    destruct P1 as [_ (d1 & Hd1 & ->)]. destruct P2 as [_ (d2 & Hd2 & ->)].
    congruence.
  - (* by the table in both runs *)
    rewrite Hl1 in P2. injection P2 as <-.
    pose proof (bounded_get _ _ _ _ HC1 P1) as Hlt.
    destruct (deref_bounded h1 l1) as [v0 Hv0]; [lia |].
    pose proof (Hheap1 _ _ Hv0) as E1. rewrite E1.
    rewrite (Hheap2 _ _ (Hold _ _ E1)). f_equal.
    rewrite (fold_ext (file_write s idx2 C2 l1) (file_write s idx1 C1 l1))
      by (intros g a Hg; now apply write_old_same).
    apply (fold_set_url_idem _ rf_url).
    intros g _. now apply write_old_shape.
  - (* synthesized, then found in the table *)
    rewrite Hl1 in P2. injection P2 as <-.
    destruct P1 as [Hge E1]. rewrite E1.
    rewrite (Hheap2 _ _ (Hold _ _ E1)). f_equal.
    apply fold_fixed. intros g Hg.
    pose proof (deref_lt _ _ _ E1) as Hlt.
    unfold file_write. rewrite (tier_second g Hg), Hshift.
    destruct (Hplaced1 g Hg) as (lg & Hlg & Hpl). unfold placed in Hpl.
    destruct (tier_of s idx1 C1 (file_id g) (file_cleanUrl g)).
    + destruct (JsMap.get (file_cleanUrl g) idx1) as [l'|] eqn:E;
        simpl; [| reflexivity].
      pose proof (Hidx_lo _ _ E).
      destruct (Nat.eqb_spec (l' + d) l1); [lia | reflexivity].
    + reflexivity.
    + rewrite Hlg. pose proof (bounded_get _ _ _ _ HC1 Hpl).
      destruct (Nat.eqb_spec lg l1); [lia | reflexivity].
    + rewrite Hlg. destruct Hpl as [_ Eg].
      destruct (Nat.eqb_spec lg l1) as [->|]; [| reflexivity].
      rewrite E1 in Eg. injection Eg as _ _ Hurl _ _.
      now rewrite <- Hurl.
Qed.

End TwoRuns.

(** ** The index of two successive runs *)

Module IndexFacts.
Import MapFacts LoopFacts EffectFacts.

(** Built over a longer heap, the index holds the same documents under
    the same keys, [d] places further. *)
Lemma index_shift (docs : list MetaItem) :
  forall (h h' : Heap) (m m' : JsMap.t) (d : nat),
  List.length h' = (List.length h + d)%nat ->
  (forall k, JsMap.get k m' = (fun l => (l + d)%nat) <$> JsMap.get k m) ->
  exists objs,
    fst (fold_left indexMetadata docs (h, m)) = (h ++ objs)%list
    /\ fst (fold_left indexMetadata docs (h', m')) = (h' ++ objs)%list
    /\ forall k,
        JsMap.get k (snd (fold_left indexMetadata docs (h', m')))
        = (fun l => (l + d)%nat)
            <$> JsMap.get k (snd (fold_left indexMetadata docs (h, m))).
Proof.
  induction docs as [|mi rest IH]; intros h h' m m' d Hlen Hm; simpl.
  - exists []. now rewrite !app_nil_r.
  - unfold indexMetadata at 2 4 6 8.
    destruct (mi_json mi) as [v|]; simpl; [| now apply IH].
    destruct (IH (h ++ [v])%list (h' ++ [v])%list
                 (JsMap.set (JsString.split_head "?" (v_url v))
                            (List.length h) m)
                 (JsMap.set (JsString.split_head "?" (v_url v))
                            (List.length h') m') d)
      as (objs & E1 & E2 & E3).
    + rewrite !length_snoc. lia.
    + intros k.
      destruct (String.eqb_spec (JsString.split_head "?" (v_url v)) k)
        as [->|Hne].
      * rewrite !get_set_eq. simpl. now rewrite Hlen.
      * rewrite !get_set_ne by exact Hne. apply Hm.
    + exists (v :: objs). rewrite E1, E2, <- !app_assoc.
      repeat split. exact E3.
Qed.

Lemma index_lower (docs : list MetaItem) (n0 : nat) :
  forall (h : Heap) (m : JsMap.t),
  (n0 <= List.length h)%nat ->
  (forall k l, JsMap.get k m = Some l -> (n0 <= l)%nat) ->
  forall k l,
    JsMap.get k (snd (fold_left indexMetadata docs (h, m))) = Some l ->
    (n0 <= l)%nat.
Proof.
  induction docs as [|mi rest IH]; intros h m Hn Hm; simpl; [exact Hm |].
  unfold indexMetadata at 2.
  destruct (mi_json mi) as [v|]; simpl; [| now apply IH].
  apply IH; [rewrite length_snoc; lia |].
  intros k l.
  destruct (String.eqb_spec (JsString.split_head "?" (v_url v)) k)
    as [->|Hne].
  - rewrite get_set_eq. intros [= <-]. exact Hn.
  - rewrite get_set_ne by exact Hne. apply Hm.
Qed.

Lemma processResolved_fold_ok (s : Storage) (idx : JsMap.t)
    (clock : nat -> Z) (fs : list ResolvedFile) (lp : Loop) :
  loop_ok idx lp ->
  (List.length (lp_heap lp)
   <= List.length
        (lp_heap (fold_left (processResolved s idx clock) fs lp)))%nat
  /\ loop_ok idx (fold_left (processResolved s idx clock) fs lp).
Proof.
  revert lp. induction fs as [|f rest IH]; intros lp Hok; simpl.
  - now split.
  - destruct (processResolved_ok s idx clock lp f Hok) as [Hle Hok'].
    destruct (IH _ Hok') as [Hle' Hok'']. split; [lia | exact Hok''].
Qed.

End IndexFacts.

(** ** Running [getVideos] twice *)

Module TwiceFacts.
Import MapFacts LoopFacts FailureFacts EffectFacts IndexFacts.

Lemma reconcile_listing (s : Storage) (clock clock' : nat -> Z)
    (st st' : State) :
  reconcile s clock st = None -> reconcile s clock' st' = None.
Proof.
  unfold reconcile, listAll_metadata, listAll_videos.
  destruct (st_metadata_listable s); [| reflexivity].
  destruct (fold_left indexMetadata (st_metadata s) (heap st, _)).
  destruct (fold_left indexMetadata (st_metadata s) (heap st', _)).
  destruct (st_videos_listable s); [discriminate | reflexivity].
Qed.

(** With distinct ids the second run ends with the same records. *)
Lemma reconcile_twice (s : Storage) (clock1 clock2 : nat -> Z)
    (st : State) (lp1 lp2 : Loop) :
  wf_state st -> distinct_ids s ->
  reconcile s clock1 st = Some lp1 ->
  reconcile s clock2 (mkState (lp_heap lp1) (lp_videos lp1)) = Some lp2 ->
  snapshot (lp_heap lp2) (lp_videoMap lp2)
  = snapshot (lp_heap lp1) (lp_videoMap lp1).
Proof.
  intros Hwf [Hnd Hids] R1 R2.
  unfold reconcile, listAll_metadata, listAll_videos in R1, R2.
  destruct (st_metadata_listable s); [| discriminate].
  destruct (st_videos_listable s) eqn:Hlv.
  2:{ destruct (fold_left indexMetadata _ _); discriminate. }
  cbn [heap videos] in R2.
  pose proof (indexMetadata_ok (st_metadata s) (heap st) JsMap.empty)
    as Hi1.
  pose proof (index_lower (st_metadata s) (List.length (heap st))
                (heap st) JsMap.empty) as Hlo1.
  destruct (fold_left indexMetadata (st_metadata s) (heap st, JsMap.empty))
    as [h1 idx1] eqn:F1.
  destruct Hi1 as [Hle1 Hb1]; [constructor |].
  injection R1 as R1. rewrite processItems_resolved in R1.
  set (fs := resolved_files (st_videos s)) in *.
  assert (Hok1 : loop_ok idx1 (mkLoop h1 (videos st) JsMap.empty 0%nat)).
  { repeat split; cbn; [exact Hb1 | | constructor].
    now apply (bounded_mono (List.length (heap st))). }
  destruct (processResolved_fold_ok s idx1 clock1 fs _ Hok1)
    as [Hgrow1 Hok1'].
  destruct (loop_effect s idx1 clock1 (videos st) fs _ Hnd Hids Hok1)
    as (L1 & P1 & K1 & _); [reflexivity | reflexivity |].
  rewrite R1 in Hgrow1, Hok1', L1, P1, K1. cbn in Hgrow1, L1, P1, K1.
  (* the second run *)
  destruct (index_shift (st_metadata s) (heap st) (lp_heap lp1)
              JsMap.empty JsMap.empty
              (List.length (lp_heap lp1) - List.length (heap st)))
    as (objs & E1 & E2 & Hshift); [lia | reflexivity |].
  pose proof (indexMetadata_ok (st_metadata s) (lp_heap lp1) JsMap.empty)
    as Hi2.
  rewrite F1 in E1, Hshift. cbn in E1, Hshift.
  destruct (fold_left indexMetadata (st_metadata s)
              (lp_heap lp1, JsMap.empty)) as [h2 idx2] eqn:F2.
  cbn in E2, Hshift.
  destruct Hi2 as [Hle2 Hb2]; [constructor |].
  injection R2 as R2. rewrite processItems_resolved in R2.
  fold fs in R2.
  destruct Hok1' as (_ & Htab1 & _).
  assert (Hok2 : loop_ok idx2
                   (mkLoop h2 (lp_videos lp1) JsMap.empty 0%nat)).
  { repeat split; cbn; [exact Hb2 | | constructor].
    now apply (bounded_mono (List.length (lp_heap lp1))). }
  destruct (loop_effect s idx2 clock2 (lp_videos lp1) fs _ Hnd Hids Hok2)
    as (L2 & P2 & K2 & _); [reflexivity | reflexivity |].
  rewrite R2 in L2, P2, K2. cbn in L2, P2, K2.
  (* record by record *)
  rewrite !snapshot_keys by (rewrite ?K1, ?K2; exact Hnd).
  rewrite K1, K2. apply omap_ext_in. intros k Hk.
  apply in_map_iff in Hk. destruct Hk as (f & <- & Hf).
  destruct (P1 f Hf) as (l1 & V1 & T1 & Pl1).
  destruct (P2 f Hf) as (l2 & V2 & _ & Pl2).
  rewrite V1, V2. cbn.
  apply (same_record s fs idx1 (videos st) idx2 (lp_videos lp1)
           h1 (lp_heap lp1) h2 (lp_heap lp2) (List.length (heap st))
           (List.length (lp_heap lp1) - List.length (heap st)))
    with (f := f); auto.
  - intros k0 l. apply Hlo1; [lia | discriminate].
  - lia.
  - intros l Hl. subst h1 h2. unfold deref.
    rewrite !lookup_app_r by lia. f_equal. lia.
  - intros l v Hv. subst h2. now apply lookup_app_l_Some.
  - intros g Hg. destruct (P1 g Hg) as (l & _ & Hl & Hpl). eauto.
Qed.

End TwiceFacts.

Section Idempotence.
Import TwiceFacts.

Variable Date_getTime : string -> option Z.

(** C7, as the code has it: from a state whose table refers to objects
    of the heap, and over a storage whose resolving files have pairwise
    distinct, non-empty id prefixes, a second [getVideos] answers with
    the same list as the first, whatever the clock readings. *)
Theorem getVideos_twice (s : Storage) (clock1 clock2 : nat -> Z)
    (st : State) :
  wf_state st -> distinct_ids s ->
  let '(first, st1) := getVideos Date_getTime (Available s) clock1 st in
  let '(second, _) := getVideos Date_getTime (Available s) clock2 st1 in
  second = first.
Proof.
  intros Hwf Hids. unfold getVideos.
  destruct (reconcile s clock1 st) as [lp1|] eqn:R1.
  - destruct (reconcile s clock2 (mkState (lp_heap lp1) (lp_videos lp1)))
      as [lp2|] eqn:R2.
    + now rewrite (reconcile_twice s clock1 clock2 st lp1 lp2).
    + now rewrite (reconcile_listing s clock2 clock1 _ st R2) in R1.
  - unfold fromMemory.
    now rewrite (reconcile_listing s clock1 clock2 st st R1).
Qed.

End Idempotence.

(** ** The statements on the sample data *)

Module Examples.
Import Samples.

Lemma getVideos_listing_failure_witness :
  map_ok (videos two_records)
  /\ (listAll_metadata offline = None \/ listAll_videos offline = None)
  /\ exists vs,
      getVideos IsoDate.getTime (Available offline) noon two_records
      = (mkResult true None (Some vs), two_records)
      /\ Permutation vs
           (omap (fun id => data (getVideoById id two_records))
                 (JsMap.keys (videos two_records)))
      /\ Sorted (not_older IsoDate.getTime) vs
      /\ (Forall (dated IsoDate.getTime) vs ->
          StronglySorted (newer_or_same IsoDate.getTime) vs)
      /\ vs = [mkVideo "18" "z.mp4" "https://h/v/18_z.mp4" 11
                       "2024-02-01T00:00:00.000Z" None Processing;
               done_video].
Proof.
  assert (Hok : map_ok (videos two_records)).
  { unfold map_ok. vm_compute. repeat constructor; simpl; intuition discriminate. }
  split; [exact Hok |]. split; [left; reflexivity |].
  destruct (getVideos_listing_failure IsoDate.getTime offline noon
              two_records Hok (or_introl eq_refl))
    as (vs & Hrun & Hperm & Hsorted & Hdesc).
  exists vs. repeat (split; [assumption |]).
  vm_compute in Hrun. now injection Hrun as <-.
Defined.

(** C2 as stated fails.  Three videos are saved, the second with an
    [uploadedAt] that is no date; then the metadata namespace cannot be
    listed.  Against 'yesterday' the comparator gives [NaN], which counts
    as equal, so the sort moves nothing (the March record is compared with
    its neighbour 'yesterday' only): the January record is listed before
    the March one. *)
Lemma listing_failure_not_descending :
  listAll_metadata offline = None
  /\ fst (getVideos IsoDate.getTime (Available offline) noon
            Samples2.undated_table)
     = mkResult true None
         (Some [set_id "1700000000001" Samples2.jan;
                set_id "1700000000002" Samples2.undated;
                set_id "1700000000003" Samples2.mar])
  /\ IsoDate.getTime (v_uploadedAt Samples2.undated) = None
  /\ (exists t_jan t_mar,
        IsoDate.getTime (v_uploadedAt Samples2.jan) = Some t_jan
        /\ IsoDate.getTime (v_uploadedAt Samples2.mar) = Some t_mar
        /\ t_jan < t_mar)
  /\ ~ StronglySorted (not_older IsoDate.getTime)
        [set_id "1700000000001" Samples2.jan;
         set_id "1700000000002" Samples2.undated;
         set_id "1700000000003" Samples2.mar].
Proof.
  split; [reflexivity |]. split; [reflexivity |]. split; [reflexivity |].
  split.
  - exists 1704067200000, 1709251200000. repeat split; reflexivity.
  - intros H. inversion H as [|? ? _ Hall]; subst.
    inversion Hall as [|? ? _ Hrest]; subst.
    inversion Hrest as [|? ? Hlate _]; subst.
    vm_compute in Hlate. now apply Hlate.
Qed.

(** File b's canonical URL is in the index (object 1) while the table
    holds another record (object 0) under its id: the indexed record is
    adopted. *)
Lemma resolve_first_match_witness :
  let idx : JsMap.t := [("https://fs/v/1700000000400_b.mp4", 1%nat)] in
  let table : JsMap.t := [("1700000000400", 0%nat)] in
  let h : Heap := [done_video; meta_b] in
  tier_of library idx table "1700000000400"
          "https://fs/v/1700000000400_b.mp4" = ByUrl
  /\ resolve library idx "1700000000400" "1700000000400_b.mp4" url_b
             "https://fs/v/1700000000400_b.mp4" md_b h table
     = (1%nat,
        [done_video; refresh_all "1700000000400" url_b md_b meta_b],
        [("1700000000400", 1%nat)]).
Proof.
  intros idx table h.
  apply (proj2 (ResolveFacts.resolve_first_match library idx
                  "1700000000400" "1700000000400_b.mp4" url_b
                  "https://fs/v/1700000000400_b.mp4" md_b h table)
               1%nat 0%nat); [reflexivity | reflexivity | discriminate].
Defined.

(** Object 1 has transcript text, object 0 has none. *)
Lemma addToMap_prefers_text_witness :
  let h : Heap := [done_video; meta_b] in
  JsMap.get "17" (addToMap h "17" 0%nat (addToMap h "17" 1%nat [])) = Some 1%nat
  /\ JsMap.get "17" (addToMap h "17" 1%nat (addToMap h "17" 0%nat []))
     = Some 1%nat.
Proof.
  intros h.
  apply (proj2 (MergeFacts.addToMap_prefers_text h h "17" 0%nat 0%nat
                  1%nat 0%nat [])); reflexivity.
Defined.

Lemma library_distinct : distinct_ids library.
Proof.
  split; vm_compute.
  - repeat constructor; simpl; intuition discriminate.
  - repeat constructor.
Defined.

Lemma getVideos_twice_witness :
  wf_state empty_state /\ distinct_ids library
  /\ let '(first, st1) :=
       getVideos IsoDate.getTime (Available library) noon empty_state in
     let '(second, _) :=
       getVideos IsoDate.getTime (Available library) later st1 in
     second = first.
Proof.
  split; [constructor |]. split; [exact library_distinct |].
  apply (getVideos_twice IsoDate.getTime library noon later empty_state);
    [constructor | exact library_distinct].
Defined.

(** C7 as stated fails.  Two files share the id prefix and the document
    of the second has no transcript yet: the first call lists the record
    synthesized for the first file, the second call lists the document's
    record, which the first call left in the table under that id.  And a
    file named '_clip.mp4' gets the time of each call as its id. *)
Lemma getVideos_twice_differs :
  (wf_state empty_state
   /\ fst (getVideos IsoDate.getTime (Available collision) noon
             (snd (getVideos IsoDate.getTime (Available collision) noon
                     empty_state)))
      <> fst (getVideos IsoDate.getTime (Available collision) noon
                empty_state))
  /\ fst (getVideos IsoDate.getTime (Available nameless) later
            (snd (getVideos IsoDate.getTime (Available nameless) noon
                    empty_state)))
     <> fst (getVideos IsoDate.getTime (Available nameless) noon
               empty_state).
Proof.
  split; [split; [constructor |] |]; vm_compute; discriminate.
Qed.


End Examples.

(** ** The table as a store: save, update, look up, delete *)

Module StoreFacts.
Import MapFacts LoopFacts StateFacts EffectFacts FailureFacts TableFacts.

Lemma map_ok_set (k : string) (x : loc) (m : JsMap.t) :
  map_ok m -> map_ok (JsMap.set k x m).
Proof.
  unfold map_ok, JsMap.keys. induction m as [|[k' x'] r IH]; simpl.
  - intros _. repeat constructor. intros [].
  - intros H. inversion H as [|? ? Hnotin Hr]; subst.
    destruct (String.eqb_spec k' k) as [->|Hne]; simpl.
    + now constructor.
    + constructor; [| now apply IH].
      intros Hin. apply Hnotin. clear -Hin Hne.
      induction r as [|[k0 x0] r IH]; simpl in *.
      * destruct Hin as [E|[]]. now destruct Hne.
      * destruct (String.eqb_spec k0 k) as [->|Hk]; simpl in *; tauto.
Qed.

Lemma delete_absent (k : string) (m : JsMap.t) :
  JsMap.get k m = None -> JsMap.delete k m = (m, false).
Proof.
  induction m as [|[k' x] r IH]; simpl; [reflexivity |].
  destruct (String.eqb k' k); [discriminate |].
  intros H. now rewrite (IH H).
Qed.

Lemma delete_present (k : string) (m : JsMap.t) :
  JsMap.has k m = true -> snd (JsMap.delete k m) = true.
Proof.
  unfold JsMap.has. induction m as [|[k' x] r IH]; simpl; [discriminate |].
  destruct (String.eqb k' k); [reflexivity |].
  intros H. specialize (IH H). now destruct (JsMap.delete k r).
Qed.

Lemma get_delete_ne (k k' : string) (m : JsMap.t) :
  k <> k' -> JsMap.get k' (fst (JsMap.delete k m)) = JsMap.get k' m.
Proof.
  intros Hne. induction m as [|[k0 x] r IH]; simpl; [reflexivity |].
  destruct (String.eqb_spec k0 k) as [->|Hk]; simpl.
  - destruct (String.eqb_spec k k'); [contradiction | reflexivity].
  - destruct (JsMap.delete k r) as [r' b]; simpl in *. now rewrite IH.
Qed.

Lemma keys_delete_subset (k k' : string) (m : JsMap.t) :
  In k' (JsMap.keys (fst (JsMap.delete k m))) -> In k' (JsMap.keys m).
Proof.
  unfold JsMap.keys. induction m as [|[k0 x] r IH]; simpl; [auto |].
  destruct (String.eqb k0 k); simpl; [tauto |].
  destruct (JsMap.delete k r) as [r' b]; simpl in *. tauto.
Qed.

Lemma get_delete_eq (k : string) (m : JsMap.t) :
  map_ok m -> JsMap.get k (fst (JsMap.delete k m)) = None.
Proof.
  unfold map_ok, JsMap.keys. induction m as [|[k0 x] r IH]; simpl;
    [reflexivity |].
  intros H. inversion H as [|? ? Hnotin Hr]; subst.
  destruct (String.eqb_spec k0 k) as [->|Hk]; simpl.
  - now apply get_absent_key.
  - specialize (IH Hr). destruct (JsMap.delete k r) as [r' b]; simpl in *.
    destruct (String.eqb_spec k0 k); [contradiction | exact IH].
Qed.

Lemma map_ok_delete (k : string) (m : JsMap.t) :
  map_ok m -> map_ok (fst (JsMap.delete k m)).
Proof.
  unfold map_ok. induction m as [|[k0 x] r IH]; simpl; [auto |].
  intros H. inversion H as [|? ? Hnotin Hr]; subst.
  destruct (String.eqb k0 k); simpl; [exact Hr |].
  pose proof (keys_delete_subset k k0 r) as Hsub.
  specialize (IH Hr). destruct (JsMap.delete k r) as [r' b]; simpl in *.
  constructor; [| exact IH]. intros Hin. apply Hnotin, Hsub, Hin.
Qed.

(** Setting a key to the value it has changes nothing. *)
Lemma set_same (k : string) (x : loc) (m : JsMap.t) :
  JsMap.get k m = Some x -> JsMap.set k x m = m.
Proof.
  induction m as [|[k' x'] r IH]; simpl; [discriminate |].
  destruct (String.eqb_spec k' k) as [->|Hne].
  - now intros [= ->].
  - intros H. now rewrite IH.
Qed.

End StoreFacts.

Module StoreProperties.
Import MapFacts LoopFacts StateFacts EffectFacts FailureFacts TableFacts
       StoreFacts.

Lemma get_after_save (now : Z) (video : Video) (st : State) :
  getVideoById (JsString.of_number now)
    (snd (saveVideoMetadata now video st))
  = mkResult true None (Some (set_id (JsString.of_number now) video)).
Proof.
  unfold saveVideoMetadata, getVideoById. cbn.
  now rewrite get_set_eq, deref_snoc_new.
Qed.

(** X1: the record that [saveVideoMetadata] returns is the one
    [getVideoById] finds under the returned id: the given video with the
    id of the call's time. *)
Theorem save_then_get (now : Z) (video : Video) (st : State) :
  let saved := set_id (JsString.of_number now) video in
  fst (saveVideoMetadata now video st) = mkResult true None (Some saved)
  /\ getVideoById (JsString.of_number now)
       (snd (saveVideoMetadata now video st))
     = mkResult true None (Some saved).
Proof.
  cbn zeta. split; [reflexivity | apply get_after_save].
Qed.

(** X2: [saveVideoMetadata] leaves every other id as it was: in a state
    whose table refers to existing objects, a lookup under another id
    answers the same before and after. *)
Theorem save_keeps_others (now : Z) (video : Video) (st : State)
    (videoId : string) :
  wf_state st ->
  videoId <> JsString.of_number now ->
  getVideoById videoId (snd (saveVideoMetadata now video st))
  = getVideoById videoId st.
Proof.
  intros Hwf Hne. unfold saveVideoMetadata, getVideoById. cbn.
  rewrite get_set_ne by congruence.
  destruct (JsMap.get videoId (videos st)) as [l|] eqn:E; [| reflexivity].
  pose proof (bounded_get _ _ _ _ Hwf E) as Hl.
  destruct (deref_bounded (heap st) l Hl) as [v Hv].
  now rewrite Hv, (deref_snoc_old _ _ _ _ Hv).
Qed.

Lemma save_keeps_others_witness :
  wf_state Samples.two_records
  /\ "17" <> JsString.of_number 1700000001000
  /\ getVideoById "17"
       (snd (saveVideoMetadata 1700000001000 Samples.meta_b
               Samples.two_records))
     = getVideoById "17" Samples.two_records.
Proof.
  assert (Hwf : wf_state Samples.two_records)
    by (repeat constructor).
  split; [exact Hwf |]. split; [discriminate |].
  apply (save_keeps_others 1700000001000 Samples.meta_b Samples.two_records
           "17" Hwf).
  discriminate.
Defined.

(** X3: two saves at the same millisecond share the id: the second
    replaces the first, which can no longer be looked up, and the table
    does not grow. *)
Theorem save_same_time_replaces (now : Z) (first second : Video)
    (st : State) :
  let st1 := snd (saveVideoMetadata now first st) in
  let st2 := snd (saveVideoMetadata now second st1) in
  getVideoById (JsString.of_number now) st2
  = mkResult true None (Some (set_id (JsString.of_number now) second))
  /\ JsMap.keys (videos st2) = JsMap.keys (videos st1).
Proof.
  cbn zeta. split; [apply get_after_save |].
  unfold saveVideoMetadata. cbn.
  generalize (JsString.of_number now) as k.
  generalize (List.length (heap st)) as x.
  generalize (List.length (heap st ++ [set_id (JsString.of_number now) first])%list) as y.
  intros y x k. unfold JsMap.keys.
  induction (videos st) as [|[k' x'] r IH]; simpl.
  - now rewrite String.eqb_refl.
  - destruct (String.eqb k' k) eqn:E; simpl.
    + now rewrite String.eqb_refl.
    + rewrite E. simpl. now rewrite IH.
Qed.

(** X4: deleting an id that the table holds succeeds without an error;
    afterwards the id is not found, and deleting it again fails with
    'Video not found'. *)
Theorem delete_present_id (videoId : string) (st : State) :
  map_ok (videos st) ->
  JsMap.has videoId (videos st) = true ->
  let st' := snd (deleteVideo videoId st) in
  fst (deleteVideo videoId st) = mkResult true None None
  /\ getVideoById videoId st' = mkResult false (Some "Video not found") None
  /\ fst (deleteVideo videoId st')
     = mkResult false (Some "Video not found") None.
Proof.
  intros Hok Hhas. cbn zeta. unfold deleteVideo, getVideoById, not_found.
  pose proof (delete_present videoId _ Hhas) as Hflag.
  pose proof (get_delete_eq videoId _ Hok) as Hgone.
  destruct (JsMap.delete videoId (videos st)) as [m b]; cbn in *.
  subst b. rewrite Hgone. repeat split.
  now rewrite (delete_absent _ _ Hgone).
Qed.

Lemma delete_present_id_witness :
  map_ok (videos Samples.two_records)
  /\ JsMap.has "17" (videos Samples.two_records) = true
  /\ fst (deleteVideo "17" Samples.two_records) = mkResult true None None
  /\ getVideoById "17" (snd (deleteVideo "17" Samples.two_records))
     = mkResult false (Some "Video not found") None
  /\ fst (deleteVideo "17" (snd (deleteVideo "17" Samples.two_records)))
     = mkResult false (Some "Video not found") None.
Proof.
  assert (Hok : map_ok (videos Samples.two_records)).
  { unfold map_ok. vm_compute.
    repeat constructor; simpl; intuition discriminate. }
  split; [exact Hok |]. split; [reflexivity |].
  apply (delete_present_id "17" Samples.two_records Hok). reflexivity.
Defined.

(** X5: deleting an id that the table does not hold answers
    [success: false] with the error 'Video not found' and changes
    nothing. *)
Theorem delete_unknown_id (videoId : string) (st : State) :
  JsMap.get videoId (videos st) = None ->
  deleteVideo videoId st
  = (mkResult false (Some "Video not found") None, st).
Proof.
  intros H. unfold deleteVideo. rewrite (delete_absent _ _ H).
  now destruct st.
Qed.

Lemma delete_unknown_id_witness :
  JsMap.get "19" (videos Samples.two_records) = None
  /\ deleteVideo "19" Samples.two_records
     = (mkResult false (Some "Video not found") None, Samples.two_records).
Proof.
  split; [reflexivity |].
  apply (delete_unknown_id "19" Samples.two_records). reflexivity.
Defined.

(** X6: [deleteVideo] touches no other id: a lookup under another id
    answers the same before and after. *)
Theorem delete_keeps_others (videoId other : string) (st : State) :
  other <> videoId ->
  getVideoById other (snd (deleteVideo videoId st)) = getVideoById other st.
Proof.
  intros Hne. unfold deleteVideo, getVideoById.
  pose proof (get_delete_ne videoId other (videos st)) as H.
  destruct (JsMap.delete videoId (videos st)) as [m b]; cbn in *.
  rewrite H by congruence. reflexivity.
Qed.

Lemma delete_keeps_others_witness :
  "18" <> "17"
  /\ getVideoById "18" (snd (deleteVideo "17" Samples.two_records))
     = getVideoById "18" Samples.two_records.
Proof.
  split; [discriminate |].
  apply (delete_keeps_others "17" "18" Samples.two_records). discriminate.
Defined.

(** X7: what [updateVideoStatus] answers is what [getVideoById] answers
    for the same id afterwards, found or not; and the table itself (its
    keys, their order and the objects they refer to) is unchanged. *)
Theorem update_then_get (videoId : string) (status : Status)
    (transcription : option Transcription) (st : State) :
  let '(res, st') := updateVideoStatus videoId status transcription st in
  getVideoById videoId st' = res /\ videos st' = videos st.
Proof.
  unfold updateVideoStatus, getVideoById.
  destruct (JsMap.get videoId (videos st)) as [l|] eqn:E.
  - cbn. rewrite (set_same _ _ _ E), E. now split.
  - rewrite E. now split.
Qed.

(** X8: [updateVideoStatus] changes one object only: a lookup under an id
    whose record is another object answers the same before and after. *)
Theorem update_keeps_others (videoId other : string) (status : Status)
    (transcription : option Transcription) (st : State) (l l' : loc) :
  JsMap.get videoId (videos st) = Some l ->
  JsMap.get other (videos st) = Some l' ->
  l <> l' ->
  getVideoById other
    (snd (updateVideoStatus videoId status transcription st))
  = getVideoById other st.
Proof.
  intros Hl Hl' Hne. unfold updateVideoStatus, getVideoById.
  rewrite Hl. cbn. rewrite (set_same _ _ _ Hl), Hl'.
  destruct transcription; now rewrite !deref_modify_ne.
Qed.

Lemma update_keeps_others_witness :
  JsMap.get "17" (videos Samples.two_records) = Some 0%nat
  /\ JsMap.get "18" (videos Samples.two_records) = Some 1%nat
  /\ 0%nat <> 1%nat
  /\ getVideoById "18"
       (snd (updateVideoStatus "17" Error None Samples.two_records))
     = getVideoById "18" Samples.two_records.
Proof.
  split; [reflexivity |]. split; [reflexivity |]. split; [discriminate |].
  apply (update_keeps_others "17" "18" Error None Samples.two_records
           0%nat 1%nat); [reflexivity | reflexivity | discriminate].
Defined.

End StoreProperties.

(** ** What holds in every reachable state *)

Module ReachFacts.
Import MapFacts ResolveFacts LoopFacts StateFacts EffectFacts FailureFacts
       TableFacts StoreFacts.

Lemma adopts_map_ok (s : Storage) (metadataByUrl : JsMap.t)
    (id fileName url cleanUrl : string) (metadata : FullMetadata)
    (h : Heap) (table : JsMap.t) (t : Tier) (r : loc * Heap * JsMap.t) :
  adopts s metadataByUrl id fileName url cleanUrl metadata h table t r ->
  map_ok table -> map_ok (snd r).
Proof.
  intros Had Hok. inversion Had; subst; cbn; auto using map_ok_set.
Qed.

Lemma processItem_map_ok (s : Storage) (idx : JsMap.t) (clock : nat -> Z)
    (lp : Loop) (it : VideoItem) :
  map_ok (lp_videos lp) ->
  map_ok (lp_videos (processItem s idx clock lp it)).
Proof.
  intros Hok. unfold processItem, processFile.
  destruct (vi_downloadURL it) as [url|]; [| exact Hok].
  destruct (vi_metadata it) as [md|]; [| exact Hok].
  pose proof (resolve_adopts s idx
                (deriveId (clock (lp_ticks lp)) (vi_name it)) (vi_name it)
                url (JsString.split_head "?" url) md (lp_heap lp)
                (lp_videos lp)) as Had.
  apply adopts_map_ok in Had; [| exact Hok].
  destruct (resolve _ _ _ _ _ _ _ _ _) as [[video h] table]. exact Had.
Qed.

Lemma processItems_map_ok (s : Storage) (idx : JsMap.t) (clock : nat -> Z)
    (items : list VideoItem) (lp : Loop) :
  map_ok (lp_videos lp) ->
  map_ok (lp_videos (fold_left (processItem s idx clock) items lp)).
Proof.
  revert lp. induction items as [|it rest IH]; intros lp Hok; simpl.
  - exact Hok.
  - now apply IH, processItem_map_ok.
Qed.

Lemma getVideos_map_ok (Date_getTime : string -> option Z) (fb : Firebase)
    (clock : nat -> Z) (st : State) :
  map_ok (videos st) ->
  map_ok (videos (snd (getVideos Date_getTime fb clock st))).
Proof.
  intros Hok. unfold getVideos. destruct fb as [e|s]; [exact Hok |].
  destruct (reconcile s clock st) as [lp|] eqn:R; [| exact Hok].
  unfold reconcile in R.
  destruct (listAll_metadata s) as [docs|]; [| discriminate].
  destruct (fold_left indexMetadata docs _) as [h idx].
  destruct (listAll_videos s) as [items|]; [| discriminate].
  injection R as <-. cbn. now apply processItems_map_ok.
Qed.

Lemma update_table (videoId : string) (status : Status)
    (transcription : option Transcription) (st : State) :
  videos (snd (updateVideoStatus videoId status transcription st))
  = videos st.
Proof.
  unfold updateVideoStatus.
  destruct (JsMap.get videoId (videos st)) as [l|] eqn:E; [| reflexivity].
  cbn. now apply set_same.
Qed.

Lemma perform_sound (Date_getTime : string -> option Z) (a : Action)
    (st : State) :
  wf_state st /\ map_ok (videos st) ->
  wf_state (perform Date_getTime a st)
  /\ map_ok (videos (perform Date_getTime a st)).
Proof.
  intros [Hwf Hok]. destruct a as [now video | id status tr | fb clock | id];
    cbn [perform].
  - split; [now apply saveVideoMetadata_wf |].
    unfold saveVideoMetadata; cbn. now apply map_ok_set.
  - split; [now apply updateVideoStatus_wf |].
    now rewrite update_table.
  - split; [now apply getVideos_wf | now apply getVideos_map_ok].
  - split; [now apply deleteVideo_wf |].
    unfold deleteVideo. pose proof (map_ok_delete id _ Hok) as H.
    now destruct (JsMap.delete id (videos st)).
Qed.

Lemma run_sound (Date_getTime : string -> option Z) (calls : list Action)
    (st : State) :
  wf_state st /\ map_ok (videos st) ->
  let st' := fold_left (fun st a => perform Date_getTime a st) calls st in
  wf_state st' /\ map_ok (videos st').
Proof.
  revert st. induction calls as [|a rest IH]; intros st H; simpl.
  - exact H.
  - now apply IH, perform_sound.
Qed.

(** X9: after any sequence of [saveVideoMetadata], [updateVideoStatus],
    [getVideos] and [deleteVideo] calls on a fresh module, [getVideoById]
    answers either 'Video not found' or [success: true] with a record; the
    table holds each id once and refers to existing objects only. *)
Theorem lookup_after_calls (Date_getTime : string -> option Z)
    (calls : list Action) (videoId : string) :
  let st := after Date_getTime calls in
  (getVideoById videoId st = mkResult false (Some "Video not found") None
   \/ exists v, getVideoById videoId st = mkResult true None (Some v))
  /\ map_ok (videos st) /\ wf_state st.
Proof.
  cbn zeta. unfold after.
  destruct (run_sound Date_getTime calls (mkState [] JsMap.empty))
    as [Hwf Hok]; [split; constructor |].
  split; [| now split].
  unfold getVideoById.
  destruct (JsMap.get videoId (videos _)) as [l|] eqn:E; [| now left].
  right. destruct (deref_bounded _ l (bounded_get _ _ _ _ Hwf E)) as [v Hv].
  exists v. now rewrite Hv.
Qed.

End ReachFacts.

(** ** What every [getVideos] call does to the table and the list *)

Module ListingFacts.
Import MapFacts ResolveFacts MergeFacts LoopFacts StateFacts EffectFacts
       FailureFacts TableFacts StoreFacts ReachFacts.

Lemma keys_set_present (k : string) (x x' : loc) (m : JsMap.t) :
  JsMap.get k m = Some x' -> JsMap.keys (JsMap.set k x m) = JsMap.keys m.
Proof.
  unfold JsMap.keys. induction m as [|[k' y] r IH]; simpl; [discriminate |].
  destruct (String.eqb_spec k' k) as [->|Hne]; simpl; [reflexivity |].
  intros H. now rewrite IH.
Qed.

(** [set] keeps the keys where they are and puts a new one last. *)
Lemma keys_set (k : string) (x : loc) (m : JsMap.t) :
  JsMap.keys (JsMap.set k x m)
  = if JsMap.has k m then JsMap.keys m else (JsMap.keys m ++ [k])%list.
Proof.
  unfold JsMap.has. destruct (JsMap.get k m) as [x'|] eqn:E.
  - now apply (keys_set_present k x x').
  - now apply keys_set_absent.
Qed.

Lemma keys_addToMap (h : Heap) (id : string) (video : loc)
    (videoMap : JsMap.t) :
  JsMap.keys (addToMap h id video videoMap)
  = if JsMap.has id videoMap then JsMap.keys videoMap
    else (JsMap.keys videoMap ++ [id])%list.
Proof.
  unfold addToMap, JsMap.has.
  destruct (JsMap.get id videoMap) as [e|] eqn:E.
  - destruct (text_at h video && negb (text_at h e)); [| reflexivity].
    now apply (keys_set_present id video e).
  - now apply keys_set_absent.
Qed.

Lemma has_in_keys (k : string) (m : JsMap.t) :
  JsMap.has k m = true <-> In k (JsMap.keys m).
Proof.
  unfold JsMap.has, JsMap.keys. induction m as [|[k' x] r IH]; simpl.
  - split; [discriminate | tauto].
  - destruct (String.eqb_spec k' k) as [->|Hne].
    + split; auto.
    + rewrite IH. split; [auto | intros [E|H]; [contradiction | exact H]].
Qed.

(** The table after an adoption: the keys it had, in place, and the id. *)
Lemma adopts_keys (s : Storage) (metadataByUrl : JsMap.t)
    (id fileName url cleanUrl : string) (metadata : FullMetadata)
    (h : Heap) (table : JsMap.t) (t : Tier) (r : loc * Heap * JsMap.t) :
  adopts s metadataByUrl id fileName url cleanUrl metadata h table t r ->
  JsMap.keys (snd r)
  = if JsMap.has id table then JsMap.keys table
    else (JsMap.keys table ++ [id])%list.
Proof.
  intros Had. inversion Had as [v Hget | saved Hload | v Hget |]; subst;
    cbn; try apply keys_set.
  unfold JsMap.has. now rewrite Hget.
Qed.

Lemma processResolved_keys (s : Storage) (idx : JsMap.t) (clock : nat -> Z)
    (lp : Loop) (f : ResolvedFile) :
  let id := deriveId (clock (lp_ticks lp)) (rf_name f) in
  let lp' := processResolved s idx clock lp f in
  JsMap.keys (lp_videos lp')
  = (if JsMap.has id (lp_videos lp) then JsMap.keys (lp_videos lp)
     else (JsMap.keys (lp_videos lp) ++ [id])%list)
  /\ JsMap.keys (lp_videoMap lp')
     = (if JsMap.has id (lp_videoMap lp) then JsMap.keys (lp_videoMap lp)
        else (JsMap.keys (lp_videoMap lp) ++ [id])%list)
  /\ lp_ticks lp'
     = if JsString.truthy (file_id f) then lp_ticks lp else S (lp_ticks lp).
Proof.
  cbn zeta. unfold processResolved, processFile.
  pose proof (resolve_adopts s idx
                (deriveId (clock (lp_ticks lp)) (rf_name f)) (rf_name f)
                (rf_url f) (JsString.split_head "?" (rf_url f))
                (rf_metadata f) (lp_heap lp) (lp_videos lp)) as Had.
  apply adopts_keys in Had.
  destruct (resolve _ _ _ _ _ _ _ _ _) as [[video h] table]. cbn in *.
  split; [exact Had |]. split; [apply keys_addToMap | reflexivity].
Qed.

(** The keys after the loop: those there were, then the new ids. *)
Lemma loop_keys (s : Storage) (idx : JsMap.t) (clock : nat -> Z)
    (fs : list ResolvedFile) :
  forall lp : Loop,
  let lp' := fold_left (processResolved s idx clock) fs lp in
  let ids := derived_ids clock (lp_ticks lp) fs in
  (exists new, JsMap.keys (lp_videos lp')
               = (JsMap.keys (lp_videos lp) ++ new)%list
               /\ forall k, In k new -> In k ids)
  /\ (exists new, JsMap.keys (lp_videoMap lp')
                  = (JsMap.keys (lp_videoMap lp) ++ new)%list
                  /\ forall k, In k new -> In k ids)
  /\ (forall k, In k ids ->
        In k (JsMap.keys (lp_videos lp'))
        /\ In k (JsMap.keys (lp_videoMap lp'))).
Proof.
  induction fs as [|f rest IH]; intros lp; cbn zeta; simpl.
  - repeat split; try (exists []; rewrite app_nil_r; split; tauto); tauto.
  - destruct (processResolved_keys s idx clock lp f) as (K1 & K2 & K3).
    specialize (IH (processResolved s idx clock lp f)). cbn zeta in IH.
    rewrite K3 in IH.
    destruct IH as ((n1 & E1 & I1) & (n2 & E2 & I2) & I3).
    set (id := deriveId (clock (lp_ticks lp)) (rf_name f)) in *.
    set (lp1 := processResolved s idx clock lp f) in *.
    repeat split.
    + rewrite E1, K1. destruct (JsMap.has id (lp_videos lp)).
      * exists n1. split; [reflexivity | auto].
      * exists (id :: n1). rewrite <- app_assoc. split; [reflexivity |].
        intros k [<- | Hk]; auto.
    + rewrite E2, K2. destruct (JsMap.has id (lp_videoMap lp)).
      * exists n2. split; [reflexivity | auto].
      * exists (id :: n2). rewrite <- app_assoc. split; [reflexivity |].
        intros k [<- | Hk]; auto.
    + destruct H as [<- | Hk]; [| now apply I3].
      rewrite E1, K1. apply in_or_app. left.
      destruct (JsMap.has id (lp_videos lp)) eqn:E;
        [now apply has_in_keys | apply in_or_app; right; now left].
    + destruct H as [<- | Hk]; [| now apply I3].
      rewrite E2, K2. apply in_or_app. left.
      destruct (JsMap.has id (lp_videoMap lp)) eqn:E;
        [now apply has_in_keys | apply in_or_app; right; now left].
Qed.

Lemma processResolved_videoMap_ok (s : Storage) (idx : JsMap.t)
    (clock : nat -> Z) (fs : list ResolvedFile) (lp : Loop) :
  map_ok (lp_videoMap lp) ->
  map_ok (lp_videoMap (fold_left (processResolved s idx clock) fs lp)).
Proof.
  revert lp. induction fs as [|f rest IH]; intros lp Hok; simpl;
    [exact Hok |].
  apply IH. unfold processResolved, processFile.
  destruct (resolve _ _ _ _ _ _ _ _ _) as [[video h] table]; cbn.
  unfold addToMap. destruct (JsMap.get _ (lp_videoMap lp)) as [e|].
  - destruct (text_at h video && negb (text_at h e));
      [now apply map_ok_set | exact Hok].
  - now apply map_ok_set.
Qed.

(** The loop as [reconcile] runs it. *)
Lemma reconcile_loop (s : Storage) (clock : nat -> Z) (st : State)
    (lp : Loop) :
  reconcile s clock st = Some lp ->
  exists h idx,
    (List.length (heap st) <= List.length h)%nat
    /\ (wf_state st ->
        loop_ok idx (mkLoop h (videos st) JsMap.empty 0%nat))
    /\ lp = fold_left (processResolved s idx clock)
                      (resolved_files (st_videos s))
                      (mkLoop h (videos st) JsMap.empty 0%nat).
Proof.
  unfold reconcile, listAll_metadata, listAll_videos.
  destruct (st_metadata_listable s); [| discriminate].
  pose proof (indexMetadata_ok (st_metadata s) (heap st) JsMap.empty) as Hi.
  destruct (fold_left indexMetadata (st_metadata s) _) as [h idx].
  destruct Hi as [Hle Hidx]; [constructor |].
  destruct (st_videos_listable s); [| discriminate].
  intros [= <-]. exists h, idx. split; [exact Hle |]. split.
  - intros Hwf. repeat split; cbn; [exact Hidx | | constructor].
    now apply (bounded_mono (List.length (heap st))).
  - apply processItems_resolved.
Qed.

Lemma snapshot_length (h : Heap) (m : JsMap.t) :
  bounded (List.length h) m ->
  List.length (snapshot h m) = List.length (JsMap.keys m).
Proof.
  unfold bounded, snapshot, JsMap.values, JsMap.keys.
  induction m as [|[k x] r IH]; intros Hb; [reflexivity |].
  cbn in Hb. inversion Hb as [|? ? Hx Hr]; subst.
  destruct (deref_bounded h x Hx) as [v Hv]. unfold deref in *.
  cbn. rewrite Hv. cbn. now rewrite IH.
Qed.

Lemma derived_ids_length (clock : nat -> Z) (fs : list ResolvedFile) :
  forall n, List.length (derived_ids clock n fs) = List.length fs.
Proof. induction fs as [|f r IH]; intros n; simpl; [| rewrite IH]; auto. Qed.

End ListingFacts.

Section Listing.
Import MapFacts LoopFacts StateFacts EffectFacts FailureFacts TableFacts
       StoreFacts ReachFacts ListingFacts.

Variable Date_getTime : string -> option Z.

(** X10: whatever happens, [getVideos] returns a list in descending order
    of upload date (neighbours never in the wrong order; every record at
    least as recent as all that follow when every date can be read), and
    it reports [success: true] exactly when the storage handle could be
    taken. *)
Theorem getVideos_always_sorted (fb : Firebase) (clock : nat -> Z)
    (st : State) :
  exists vs,
    data (fst (getVideos Date_getTime fb clock st)) = Some vs
    /\ Sorted (not_older Date_getTime) vs
    /\ (Forall (dated Date_getTime) vs ->
        StronglySorted (newer_or_same Date_getTime) vs)
    /\ (success (fst (getVideos Date_getTime fb clock st)) = true
        <-> exists s, fb = Available s).
Proof.
  unfold getVideos. destruct fb as [e|s].
  - exists []. cbn. repeat split; try constructor.
    + discriminate.
    + intros [s Hs]. discriminate.
  - assert (Hs : forall l,
               Sorted (not_older Date_getTime) (sortVideos Date_getTime l)
               /\ (Forall (dated Date_getTime) (sortVideos Date_getTime l) ->
                   StronglySorted (newer_or_same Date_getTime)
                                  (sortVideos Date_getTime l))).
    { intros l. split; [apply sortVideos_sorted |].
      intros Hd. apply sorted_dated; [exact Hd | apply sortVideos_sorted]. }
    destruct (reconcile s clock st) as [lp|]; cbn;
      eexists; (split; [reflexivity |]);
      (split; [apply Hs |]); (split; [apply Hs |]);
      (split; [intros _; now exists s | reflexivity]).
Qed.

Lemma fills_table (s : Storage) (clock : nat -> Z) (st : State)
    (lp : Loop) (videoId : string) :
  wf_state st ->
  reconcile s clock st = Some lp ->
  In videoId (derived_ids clock 0 (resolved_files (st_videos s))) ->
  exists v,
    getVideoById videoId (snd (getVideos Date_getTime (Available s) clock st))
    = mkResult true None (Some v).
Proof.
  intros Hwf R Hin.
  pose proof (getVideos_wf Date_getTime (Available s) clock st Hwf) as Hwf'.
  unfold getVideos in *. rewrite R in *. cbn in *.
  destruct (reconcile_loop s clock st lp R) as (h & idx & _ & _ & ->).
  destruct (loop_keys s idx clock (resolved_files (st_videos s))
              (mkLoop h (videos st) JsMap.empty 0%nat)) as (_ & _ & K).
  cbn in K. destruct (K videoId Hin) as [Hk _].
  apply has_in_keys, has_get in Hk. destruct Hk as [l Hl].
  unfold getVideoById; cbn. rewrite Hl.
  destruct (deref_bounded _ l (bounded_get _ _ _ _ Hwf' Hl)) as [v Hv].
  exists v. cbn in Hv. now rewrite Hv.
Qed.

(** X11: a successful reconciliation caches every file it resolved: in a
    state whose table refers to existing objects, each id that the loop
    derived is afterwards answered by [getVideoById] with a record. *)
Theorem getVideos_fills_table (s : Storage) (clock : nat -> Z) (st : State)
    (lp : Loop) (videoId : string) :
  wf_state st ->
  reconcile s clock st = Some lp ->
  In videoId (derived_ids clock 0 (resolved_files (st_videos s))) ->
  exists v,
    getVideoById videoId (snd (getVideos Date_getTime (Available s) clock st))
    = mkResult true None (Some v).
Proof. apply fills_table. Qed.

(** X12: [getVideos] never drops an entry of the table: the ids it held
    stay, in the same order, and new ids come after them. *)
Theorem getVideos_keeps_table (fb : Firebase) (clock : nat -> Z)
    (st : State) :
  exists new,
    JsMap.keys (videos (snd (getVideos Date_getTime fb clock st)))
    = (JsMap.keys (videos st) ++ new)%list.
Proof.
  unfold getVideos. destruct fb as [e|s].
  - exists []. cbn. now rewrite app_nil_r.
  - destruct (reconcile s clock st) as [lp|] eqn:R.
    + destruct (reconcile_loop s clock st lp R) as (h & idx & _ & _ & ->).
      destruct (loop_keys s idx clock (resolved_files (st_videos s))
                  (mkLoop h (videos st) JsMap.empty 0%nat))
        as ((new & E & _) & _ & _).
      exists new. exact E.
    + exists []. cbn. now rewrite app_nil_r.
Qed.

(** X13: the list of a successful reconciliation has one record for each
    distinct id that the loop derived, so never more records than files
    that resolve. *)
Theorem getVideos_one_per_id (s : Storage) (clock : nat -> Z) (st : State)
    (lp : Loop) :
  wf_state st ->
  reconcile s clock st = Some lp ->
  let ids := derived_ids clock 0 (resolved_files (st_videos s)) in
  exists vs,
    fst (getVideos Date_getTime (Available s) clock st)
    = mkResult true None (Some vs)
    /\ List.NoDup (JsMap.keys (lp_videoMap lp))
    /\ (forall k, In k (JsMap.keys (lp_videoMap lp)) <-> In k ids)
    /\ List.length vs = List.length (JsMap.keys (lp_videoMap lp))
    /\ (List.length vs <= List.length (resolved_files (st_videos s)))%nat.
Proof.
  intros Hwf R. cbn zeta.
  destruct (reconcile_wf s clock st lp Hwf R) as [_ Hvm].
  unfold getVideos. rewrite R. cbn [fst].
  destruct (reconcile_loop s clock st lp R) as (h & idx & _ & _ & E).
  destruct (loop_keys s idx clock (resolved_files (st_videos s))
              (mkLoop h (videos st) JsMap.empty 0%nat))
    as (_ & (new & K & Knew) & Kall).
  pose proof (processResolved_videoMap_ok s idx clock
                (resolved_files (st_videos s))
                (mkLoop h (videos st) JsMap.empty 0%nat)) as Hnd.
  rewrite <- E in K, Kall, Hnd. cbn in K, Knew, Kall, Hnd.
  specialize (Hnd ltac:(constructor)).
  assert (Hlen : List.length
                   (sortVideos Date_getTime
                      (snapshot (lp_heap lp) (lp_videoMap lp)))
                 = List.length (JsMap.keys (lp_videoMap lp))).
  { rewrite <- (snapshot_length _ _ Hvm).
    apply Permutation_length, js_sort_perm. }
  eexists. split; [reflexivity |]. split; [exact Hnd |].
  split; [| split; [exact Hlen |]].
  - intros k. split; [rewrite K; apply Knew | apply Kall].
  - rewrite Hlen.
    rewrite <- (derived_ids_length clock (resolved_files (st_videos s)) 0).
    apply List.NoDup_incl_length; [exact Hnd |].
    intros k Hk. rewrite K in Hk. now apply Knew.
Qed.

(** X30: [deleteVideo] forgets a video only until the next listing: the
    id is not found right after the call, but when its file is still in
    storage a successful [getVideos] puts a record under the id back. *)
Theorem deleted_video_comes_back (s : Storage) (clock : nat -> Z)
    (st : State) (lp : Loop) (videoId : string) :
  wf_state st -> map_ok (videos st) ->
  let st' := snd (deleteVideo videoId st) in
  reconcile s clock st' = Some lp ->
  In videoId (derived_ids clock 0 (resolved_files (st_videos s))) ->
  getVideoById videoId st' = mkResult false (Some "Video not found") None
  /\ exists v,
      getVideoById videoId
        (snd (getVideos Date_getTime (Available s) clock st'))
      = mkResult true None (Some v).
Proof.
  intros Hwf Hok. cbn zeta. intros R Hin. split.
  - unfold deleteVideo, getVideoById.
    pose proof (get_delete_eq videoId _ Hok) as Hgone.
    destruct (JsMap.delete videoId (videos st)) as [m b]; cbn in *.
    now rewrite Hgone.
  - apply (fills_table s clock _ lp videoId); auto.
    now apply deleteVideo_wf.
Qed.

End Listing.

(** ** What the index holds *)

Module IndexContent.
Import MapFacts LoopFacts EffectFacts FailureFacts.

Lemma index_content (cleanUrl : string) (docs : list MetaItem) :
  forall (h : Heap) (m : JsMap.t) (found : option Video),
  bounded (List.length h) m ->
  JsMap.get cleanUrl m ≫= deref h = found ->
  JsMap.get cleanUrl (snd (fold_left indexMetadata docs (h, m)))
    ≫= deref (fst (fold_left indexMetadata docs (h, m)))
  = last_doc cleanUrl found docs.
Proof.
  induction docs as [|mi rest IH]; intros h m found Hb Hinv; simpl.
  - exact Hinv.
  - unfold last_doc; simpl. fold (last_doc cleanUrl).
    unfold indexMetadata at 2 4.
    destruct (mi_json mi) as [v|]; simpl; [| now apply IH].
    apply IH.
    + rewrite length_snoc. apply bounded_set; [| lia].
      now apply (bounded_mono (List.length h)); [lia |].
    + destruct (String.eqb_spec (JsString.split_head "?" (v_url v)) cleanUrl)
        as [->|Hne].
      * rewrite get_set_eq. cbn. apply deref_snoc_new.
      * rewrite get_set_ne by exact Hne. rewrite <- Hinv.
        destruct (JsMap.get cleanUrl m) as [l|] eqn:E; [| reflexivity].
        cbn. destruct (deref_bounded h l (bounded_get _ _ _ _ Hb E))
          as [x Hx].
        now rewrite Hx, (deref_snoc_old _ _ _ _ Hx).
Qed.

(** Two keys of the index never share an object. *)
Lemma index_injective (docs : list MetaItem) :
  forall (h : Heap) (m : JsMap.t),
  bounded (List.length h) m ->
  (forall k k' l, JsMap.get k m = Some l -> JsMap.get k' m = Some l ->
                  k = k') ->
  forall k k' l,
    JsMap.get k (snd (fold_left indexMetadata docs (h, m))) = Some l ->
    JsMap.get k' (snd (fold_left indexMetadata docs (h, m))) = Some l ->
    k = k'.
Proof.
  induction docs as [|mi rest IH]; intros h m Hb Hinj; simpl; [exact Hinj |].
  unfold indexMetadata at 2 4.
  destruct (mi_json mi) as [v|]; simpl; [| now apply IH].
  apply IH.
  - rewrite length_snoc. apply bounded_set; [| lia].
    now apply (bounded_mono (List.length h)); [lia |].
  - intros k k' l.
    set (c := JsString.split_head "?" (v_url v)).
    destruct (String.eqb_spec c k) as [<-|Hk];
      destruct (String.eqb_spec c k') as [<-|Hk'];
      rewrite ?get_set_eq, ?get_set_ne by assumption; auto.
    + intros [= <-] H. pose proof (bounded_get _ _ _ _ Hb H). lia.
    + intros H [= <-]. pose proof (bounded_get _ _ _ _ Hb H). lia.
    + apply Hinj.
Qed.

End IndexContent.

(** ** The record listed for a file *)

Module RecordFacts.
Import MapFacts ResolveFacts LoopFacts StateFacts EffectFacts FailureFacts
       TableFacts IndexFacts IndexContent ListingFacts.

Lemma fold_idle {A B : Type} (g : A -> B -> A) (xs : list B) (v : A) :
  (forall y a, In y xs -> g a y = a) -> fold_left g xs v = v.
Proof.
  intros H. apply fold_fixed. intros y Hy. now apply H.
Qed.

(** When one element only writes, the fold is its write. *)
Lemma fold_single {A B : Type} (g : A -> B -> A) (xs : list B) (x : B)
    (v : A) :
  List.NoDup xs -> In x xs ->
  (forall y a, In y xs -> y <> x -> g a y = a) ->
  fold_left g xs v = g v x.
Proof.
  intros Hnd Hin Hidle.
  destruct (in_split _ _ Hin) as (pre & post & ->).
  apply List.NoDup_remove_2 in Hnd.
  rewrite fold_left_app. simpl.
  rewrite (fold_idle g pre).
  - apply fold_idle. intros y a Hy. apply Hidle.
    + apply in_or_app. right. now right.
    + intros ->. apply Hnd, in_or_app. now right.
  - intros y a Hy. apply Hidle.
    + apply in_or_app. now left.
    + intros ->. apply Hnd, in_or_app. now left.
Qed.

(** The run of [reconcile] over files with distinct ids. *)
Lemma reconcile_effect (s : Storage) (clock : nat -> Z) (st : State) :
  wf_state st -> distinct_ids s ->
  st_metadata_listable s = true -> st_videos_listable s = true ->
  exists h1 idx lp,
    fold_left indexMetadata (st_metadata s) (heap st, JsMap.empty)
    = (h1, idx)
    /\ reconcile s clock st = Some lp
    /\ (List.length (heap st) <= List.length h1)%nat
    /\ bounded (List.length h1) idx
    /\ (forall l v, deref h1 l = Some v ->
          deref (lp_heap lp) l
          = Some (fold_left (file_write s idx (videos st) l)
                            (resolved_files (st_videos s)) v))
    /\ (forall f, In f (resolved_files (st_videos s)) ->
          exists l,
            JsMap.get (file_id f) (lp_videoMap lp) = Some l
            /\ placed s idx (videos st) f (List.length h1) (lp_heap lp) l).
Proof.
  intros Hwf [Hnd Hids] Hlm Hlv.
  pose proof (indexMetadata_ok (st_metadata s) (heap st) JsMap.empty) as Hi.
  destruct (fold_left indexMetadata (st_metadata s) (heap st, JsMap.empty))
    as [h1 idx] eqn:F.
  destruct Hi as [Hle Hidx]; [constructor |].
  exists h1, idx.
  exists (fold_left (processResolved s idx clock)
            (resolved_files (st_videos s))
            (mkLoop h1 (videos st) JsMap.empty 0%nat)).
  assert (Hok : loop_ok idx (mkLoop h1 (videos st) JsMap.empty 0%nat)).
  { repeat split; cbn; [exact Hidx | | constructor].
    now apply (bounded_mono (List.length (heap st))). }
  destruct (loop_effect s idx clock (videos st)
              (resolved_files (st_videos s)) _ Hnd Hids Hok)
    as (L1 & L2 & _ & _); [reflexivity | reflexivity |].
  split; [reflexivity |]. split.
  - unfold reconcile, listAll_metadata, listAll_videos.
    rewrite Hlm, F, Hlv. now rewrite processItems_resolved.
  - repeat split; auto.
    intros f Hf. destruct (L2 f Hf) as (l & V & _ & P). eauto.
Qed.

(** A record of [videoMap] is in the list that [getVideos] returns. *)
Lemma listed (Date_getTime : string -> option Z) (s : Storage)
    (clock : nat -> Z) (st : State) (lp : Loop) (k : string) (l : loc)
    (v : Video) :
  reconcile s clock st = Some lp ->
  JsMap.get k (lp_videoMap lp) = Some l ->
  deref (lp_heap lp) l = Some v ->
  exists vs,
    fst (getVideos Date_getTime (Available s) clock st)
    = mkResult true None (Some vs)
    /\ In v vs.
Proof.
  intros R Hk Hv. unfold getVideos. rewrite R. cbn.
  eexists. split; [reflexivity |].
  eapply Permutation_in; [symmetry; apply js_sort_perm |].
  now apply (snapshot_member _ _ k l).
Qed.

(** The index has the canonical URL exactly when a document has it. *)
Lemma index_has (docs : list MetaItem) (h : Heap) (cleanUrl : string) :
  let r := fold_left indexMetadata docs (h, JsMap.empty) in
  JsMap.get cleanUrl (snd r) ≫= deref (fst r) = indexed_doc cleanUrl docs.
Proof. apply index_content; [constructor | reflexivity]. Qed.

Lemma tier_of_cases (s : Storage) (idx table : JsMap.t) (id cu : string) :
  tier_of s idx table id cu
  = match JsMap.get cu idx, loadVideoDataFromStorage s id,
          JsMap.get id table with
    | Some _, _, _ => ByUrl
    | None, Some _, _ => ById
    | None, None, Some _ => ByCache
    | None, None, None => Synthesized
    end.
Proof.
  unfold tier_of, first_match, JsMap.has.
  destruct (JsMap.get cu idx); simpl; [reflexivity |].
  destruct (loadVideoDataFromStorage s id); simpl; [reflexivity |].
  destruct (JsMap.get id table); reflexivity.
Qed.

End RecordFacts.

Section Records.
Import MapFacts ResolveFacts LoopFacts StateFacts EffectFacts FailureFacts
       TableFacts IndexFacts IndexContent ListingFacts RecordFacts.

Variable Date_getTime : string -> option Z.

Lemma index_absent (s : Storage) (st : State) (h1 : Heap) (idx : JsMap.t)
    (cu : string) :
  fold_left indexMetadata (st_metadata s) (heap st, JsMap.empty) = (h1, idx) ->
  bounded (List.length h1) idx ->
  indexed_doc cu (st_metadata s) = None ->
  JsMap.get cu idx = None.
Proof.
  intros F Hidx Hnone.
  pose proof (index_has (st_metadata s) (heap st) cu) as E.
  cbn zeta in E. rewrite F, Hnone in E. cbn in E.
  destruct (JsMap.get cu idx) as [l|] eqn:G; [| reflexivity].
  destruct (deref_bounded h1 l (bounded_get _ _ _ _ Hidx G)) as [v Hv].
  cbn in E. congruence.
Qed.

(** X14: a file that resolves, with no document under its canonical URL,
    no document [{id}.json] and no table entry for its id, is listed as a
    synthesized record: its id prefix, its name after the first '_', its
    URL and size, its creation time as upload date, no transcription and
    status 'completed' (both namespaces can be listed and the files that
    resolve have pairwise distinct, non-empty id prefixes). *)
Theorem bare_file_is_synthesized (s : Storage) (clock : nat -> Z)
    (st : State) (f : ResolvedFile) :
  wf_state st -> distinct_ids s ->
  st_metadata_listable s = true -> st_videos_listable s = true ->
  In f (resolved_files (st_videos s)) ->
  indexed_doc (file_cleanUrl f) (st_metadata s) = None ->
  loadVideoDataFromStorage s (file_id f) = None ->
  JsMap.get (file_id f) (videos st) = None ->
  exists vs,
    fst (getVideos Date_getTime (Available s) clock st)
    = mkResult true None (Some vs)
    /\ In (mkVideo (file_id f) (deriveName (rf_name f)) (rf_url f)
                   (md_size (rf_metadata f))
                   (md_timeCreated (rf_metadata f)) None Completed) vs.
Proof.
  intros Hwf Hids Hlm Hlv Hf Hnone Hload Htab.
  destruct (reconcile_effect s clock st Hwf Hids Hlm Hlv)
    as (h1 & idx & lp & F & R & Hle & Hidx & L1 & L2).
  destruct (L2 f Hf) as (l & V & P).
  unfold placed in P.
  rewrite tier_of_cases, (index_absent s st h1 idx _ F Hidx Hnone),
    Hload, Htab in P.
  destruct P as [_ P].
  exact (listed Date_getTime s clock st lp _ l _ R V P).
Qed.

(** X15: when both namespaces can be listed, the files that resolve have
    pairwise distinct, non-empty id prefixes and the table refers to
    existing objects, a file with no document under its canonical URL but
    a document [{id}.json] that loads is listed as that document with the
    file's URL and size; the document's own id, name, date, transcription
    and status are kept. *)
Theorem file_found_by_id (s : Storage) (clock : nat -> Z) (st : State)
    (f : ResolvedFile) (saved : Video) :
  wf_state st -> distinct_ids s ->
  st_metadata_listable s = true -> st_videos_listable s = true ->
  In f (resolved_files (st_videos s)) ->
  indexed_doc (file_cleanUrl f) (st_metadata s) = None ->
  loadVideoDataFromStorage s (file_id f) = Some saved ->
  exists vs,
    fst (getVideos Date_getTime (Available s) clock st)
    = mkResult true None (Some vs)
    /\ In (mkVideo (v_id saved) (v_name saved) (rf_url f)
                   (md_size (rf_metadata f)) (v_uploadedAt saved)
                   (v_transcription saved) (v_status saved)) vs.
Proof.
  intros Hwf Hids Hlm Hlv Hf Hnone Hload.
  destruct (reconcile_effect s clock st Hwf Hids Hlm Hlv)
    as (h1 & idx & lp & F & R & Hle & Hidx & L1 & L2).
  destruct (L2 f Hf) as (l & V & P).
  unfold placed in P.
  rewrite tier_of_cases, (index_absent s st h1 idx _ F Hidx Hnone),
    Hload in P.
  destruct P as [_ (saved' & E & P)]. injection E as <-.
  exact (listed Date_getTime s clock st lp _ l _ R V P).
Qed.

Lemma record_by_url (s : Storage) (clock : nat -> Z) (st : State)
    (f : ResolvedFile) (doc : Video) :
  wf_state st -> distinct_ids s ->
  st_metadata_listable s = true -> st_videos_listable s = true ->
  In f (resolved_files (st_videos s)) ->
  indexed_doc (file_cleanUrl f) (st_metadata s) = Some doc ->
  (forall g, In g (resolved_files (st_videos s)) ->
             file_cleanUrl g = file_cleanUrl f -> g = f) ->
  exists vs,
    fst (getVideos Date_getTime (Available s) clock st)
    = mkResult true None (Some vs)
    /\ In (mkVideo (file_id f) (v_name doc) (rf_url f)
                   (md_size (rf_metadata f)) (v_uploadedAt doc)
                   (v_transcription doc) (v_status doc)) vs.
Proof.
  intros Hwf Hids Hlm Hlv Hf Hdoc Honly.
  destruct (reconcile_effect s clock st Hwf Hids Hlm Hlv)
    as (h1 & idx & lp & F & R & Hle & Hidx & L1 & L2).
  destruct (L2 f Hf) as (l & V & P).
  pose proof (index_has (st_metadata s) (heap st) (file_cleanUrl f)) as E.
  cbn zeta in E. rewrite F, Hdoc in E. cbn in E.
  destruct (JsMap.get (file_cleanUrl f) idx) as [l0|] eqn:G;
    [| discriminate].
  cbn in E.
  unfold placed in P. rewrite tier_of_cases, G in P. injection P as <-.
  apply (listed Date_getTime s clock st lp _ l0 _ R V).
  rewrite (L1 _ _ E). f_equal.
  rewrite (fold_single _ _ f).
  - unfold file_write. rewrite tier_of_cases, G, Nat.eqb_refl. reflexivity.
  - destruct Hids as [Hnd _]. now apply List.NoDup_map_inv in Hnd.
  - exact Hf.
  - intros g a Hg Hne. apply file_write_elsewhere.
    + intros l' Hl' ->. apply Hne, Honly; [exact Hg |].
      pose proof (index_injective (st_metadata s) (heap st) JsMap.empty)
        as Hinj.
      rewrite F in Hinj. cbn in Hinj.
      eapply Hinj; eauto; [constructor | discriminate].
    + intros l' Hl' ->.
      pose proof (bounded_get _ _ _ _ Hwf Hl') as Hlt.
      pose proof (index_lower (st_metadata s) (List.length (heap st))
                    (heap st) JsMap.empty) as Hlo.
      rewrite F in Hlo. cbn in Hlo.
      specialize (Hlo (le_n _) ltac:(discriminate) _ _ G). lia.
Qed.

(** X16: when both namespaces can be listed, the files that resolve have
    pairwise distinct, non-empty id prefixes and the table refers to
    existing objects, a file whose canonical URL is that of a document,
    and of no other file, is listed as the last such document with the
    file's id, URL and size; the document's name, date, transcription and
    status are kept, whatever the table holds under the id. *)
Theorem file_found_by_url (s : Storage) (clock : nat -> Z) (st : State)
    (f : ResolvedFile) (doc : Video) :
  wf_state st -> distinct_ids s ->
  st_metadata_listable s = true -> st_videos_listable s = true ->
  In f (resolved_files (st_videos s)) ->
  indexed_doc (file_cleanUrl f) (st_metadata s) = Some doc ->
  (forall g, In g (resolved_files (st_videos s)) ->
             file_cleanUrl g = file_cleanUrl f -> g = f) ->
  exists vs,
    fst (getVideos Date_getTime (Available s) clock st)
    = mkResult true None (Some vs)
    /\ In (mkVideo (file_id f) (v_name doc) (rf_url f)
                   (md_size (rf_metadata f)) (v_uploadedAt doc)
                   (v_transcription doc) (v_status doc)) vs.
Proof. apply record_by_url. Qed.

(** X17: when both namespaces can be listed, the files that resolve have
    pairwise distinct, non-empty id prefixes and the table refers to
    existing objects, a file with no document under its canonical URL and
    no document [{id}.json], whose id the table holds, is listed as the
    table's record with the file's URL, provided no other file's id refers
    to that record; size, name, date, transcription and status stay as the
    table has them. *)
Theorem file_found_in_table (s : Storage) (clock : nat -> Z) (st : State)
    (f : ResolvedFile) (l : loc) (cached : Video) :
  wf_state st -> distinct_ids s ->
  st_metadata_listable s = true -> st_videos_listable s = true ->
  In f (resolved_files (st_videos s)) ->
  indexed_doc (file_cleanUrl f) (st_metadata s) = None ->
  loadVideoDataFromStorage s (file_id f) = None ->
  JsMap.get (file_id f) (videos st) = Some l ->
  deref (heap st) l = Some cached ->
  (forall g, In g (resolved_files (st_videos s)) ->
             JsMap.get (file_id g) (videos st) = Some l -> g = f) ->
  exists vs,
    fst (getVideos Date_getTime (Available s) clock st)
    = mkResult true None (Some vs)
    /\ In (set_url (rf_url f) cached) vs.
Proof.
  intros Hwf Hids Hlm Hlv Hf Hnone Hload Htab Hv Honly.
  destruct (reconcile_effect s clock st Hwf Hids Hlm Hlv)
    as (h1 & idx & lp & F & R & Hle & Hidx & L1 & L2).
  destruct (L2 f Hf) as (l' & V & P).
  unfold placed in P.
  rewrite tier_of_cases, (index_absent s st h1 idx _ F Hidx Hnone),
    Hload, Htab in P.
  injection P as <-.
  apply (listed Date_getTime s clock st lp _ l _ R V).
  assert (Hv1 : deref h1 l = Some cached).
  { destruct (index_shift (st_metadata s) (heap st) (heap st)
                JsMap.empty JsMap.empty 0)
      as (objs & E1 & _ & _); [lia | reflexivity |].
    rewrite F in E1. cbn in E1. subst h1.
    unfold deref in *. now apply lookup_app_l_Some. }
  rewrite (L1 _ _ Hv1). f_equal.
  rewrite (fold_single _ _ f).
  - unfold file_write.
    rewrite tier_of_cases, (index_absent s st h1 idx _ F Hidx Hnone),
      Hload, Htab, Nat.eqb_refl. reflexivity.
  - destruct Hids as [Hnd _]. now apply List.NoDup_map_inv in Hnd.
  - exact Hf.
  - intros g a Hg Hne. apply file_write_elsewhere.
    + intros l' Hl' ->.
      pose proof (index_lower (st_metadata s) (List.length (heap st))
                    (heap st) JsMap.empty) as Hlo.
      rewrite F in Hlo. cbn in Hlo.
      specialize (Hlo (le_n _) ltac:(discriminate) _ _ Hl').
      pose proof (deref_lt _ _ _ Hv). lia.
    + intros l' Hl' ->. apply Hne. now apply Honly.
Qed.

End Records.

(** ** File names and URLs *)

Module NameProperties.
Import NamingFacts.

Lemma digits_clean (c : ascii) (d : Decimal.uint) :
  IsoDate.digit c = None ->
  occurs c (NilEmpty.string_of_uint d) = false.
Proof.
  intros Hc.
  assert (H : forall a : ascii, IsoDate.digit a <> None -> Ascii.eqb a c = false).
  { intros a Ha. destruct (Ascii.eqb_spec a c) as [->|]; [contradiction |].
    reflexivity. }
  induction d; cbn [NilEmpty.string_of_uint occurs]; [reflexivity | ..];
    rewrite IHd, H by (vm_compute; discriminate); reflexivity.
Qed.

(** The decimal form of a number has no '_' and is not empty. *)
Lemma of_number_clean (n : Z) :
  occurs "_" (JsString.of_number n) = false.
Proof.
  unfold JsString.of_number, NilZero.string_of_int.
  destruct (Z.to_int n) as [d|d]; unfold NilZero.string_of_uint.
  - destruct d; try reflexivity;
      exact (digits_clean "_" _ eq_refl).
  - simpl. destruct d; try reflexivity;
      exact (digits_clean "_" _ eq_refl).
Qed.

Lemma of_number_truthy (n : Z) :
  JsString.truthy (JsString.of_number n) = true.
Proof.
  unfold JsString.of_number, NilZero.string_of_int.
  destruct (Z.to_int n) as [d|d]; [| reflexivity].
  unfold NilZero.string_of_uint. destruct d; reflexivity.
Qed.

Lemma indexOf_absent (c : ascii) (s : string) :
  occurs c s = false -> JsString.indexOf c s = -1.
Proof.
  induction s as [|a r IH]; simpl; [reflexivity |].
  destruct (Ascii.eqb a c); simpl; [discriminate |].
  intros H. now rewrite (IH H).
Qed.

Lemma indexOf_first (c : ascii) (pre rest : string) :
  occurs c pre = false ->
  JsString.indexOf c (pre ++ String c rest) = Z.of_nat (String.length pre).
Proof.
  induction pre as [|a r IH]; simpl.
  - now rewrite Ascii.eqb_refl.
  - destruct (Ascii.eqb a c); simpl; [discriminate |].
    intros H. rewrite (IH H).
    destruct (Z.ltb_spec (Z.of_nat (String.length r)) 0); lia.
Qed.

Lemma drop_prefix (pre rest : string) (c : ascii) :
  JsString.drop (S (String.length pre)) (pre ++ String c rest) = rest.
Proof. induction pre as [|a r IH]; simpl; [reflexivity | exact IH]. Qed.

(** The name after the id: the part after the first '_', or the whole
    file name when there is no '_' or nothing after it. *)
Lemma deriveName_suffix (fileName pre rest : string) :
  occurs "_" pre = false ->
  (fileName = pre -> deriveName fileName = fileName)
  /\ (fileName = pre ++ String "_" rest ->
      deriveName fileName
      = if JsString.truthy rest then rest else fileName).
Proof.
  intros Hpre. unfold deriveName, JsString.or_else, JsString.substring_from.
  split; intros ->.
  - rewrite (indexOf_absent _ _ Hpre). simpl. now destruct pre.
  - rewrite (indexOf_first _ _ _ Hpre).
    replace (Z.to_nat (Z.of_nat (String.length pre) + 1))
      with (S (String.length pre)) by lia.
    now rewrite drop_prefix.
Qed.

Lemma upload_name_round_trip_aux (uploadId now : Z) (name : string) :
  let fileName := JsString.of_number uploadId ++ String "_" name in
  deriveId now fileName = JsString.of_number uploadId
  /\ deriveName fileName = if JsString.truthy name then name else fileName.
Proof.
  cbn zeta. split.
  - unfold deriveId, JsString.or_else.
    rewrite split_head_first by apply of_number_clean.
    now rewrite of_number_truthy.
  - now apply (deriveName_suffix _ (JsString.of_number uploadId) name
                 (of_number_clean uploadId)).
Qed.

(** X18: the reconciler reads back the names the uploader writes: from
    [{uploadId}_{name}], with [uploadId] the decimal form of a time, it
    derives the id [uploadId], whatever the clock says, and the name
    [name] (the whole file name when [name] is empty), also when [name]
    itself contains '_'. *)
Theorem upload_name_round_trip (uploadId now : Z) (name : string) :
  let fileName := JsString.of_number uploadId ++ String "_" name in
  deriveId now fileName = JsString.of_number uploadId
  /\ deriveName fileName = if JsString.truthy name then name else fileName.
Proof. apply upload_name_round_trip_aux. Qed.

(** X19: the derived id is never empty, and the derived name is empty
    only for the empty file name. *)
Theorem derived_parts_not_empty (now : Z) (fileName : string) :
  JsString.truthy (deriveId now fileName) = true
  /\ (deriveName fileName = "" -> fileName = "").
Proof.
  split.
  - unfold deriveId, JsString.or_else.
    destruct (JsString.truthy (JsString.split_head "_" fileName)) eqn:E;
      [exact E | apply of_number_truthy].
  - unfold deriveName, JsString.or_else.
    destruct (JsString.truthy _) eqn:E; [| auto].
    intros H. rewrite H in E. discriminate.
Qed.

(** X20: the canonical URL drops the query: a download URL reads the same
    with any token, or none, after the '?'; the canonical URL has no '?'
    and is its own canonical URL. *)
Theorem canonical_url_ignores_query (base query query' : string) :
  occurs "?" base = false ->
  JsString.split_head "?" (base ++ String "?" query) = base
  /\ JsString.split_head "?" (base ++ String "?" query')
     = JsString.split_head "?" (base ++ String "?" query)
  /\ JsString.split_head "?" base = base
  /\ forall url,
      occurs "?" (JsString.split_head "?" url) = false
      /\ JsString.split_head "?" (JsString.split_head "?" url)
         = JsString.split_head "?" url.
Proof.
  intros H. rewrite !split_head_first by exact H.
  rewrite split_head_absent by exact H. repeat split.
  - apply split_head_clean.
  - apply split_head_absent, split_head_clean.
Qed.

Lemma canonical_url_ignores_query_witness :
  occurs "?" "https://fs/v/1700000000400_b.mp4" = false
  /\ JsString.split_head "?" Samples.url_b
     = "https://fs/v/1700000000400_b.mp4"
  /\ JsString.split_head "?"
       "https://fs/v/1700000000400_b.mp4?token=renewed"
     = JsString.split_head "?" Samples.url_b.
Proof.
  split; [reflexivity |].
  destruct (canonical_url_ignores_query "https://fs/v/1700000000400_b.mp4"
              "token=tb" "token=renewed" eq_refl) as (E1 & E2 & _).
  split; [exact E1 | exact E2].
Defined.

End NameProperties.

(** ** Acceptance of a file *)

Module UploadProperties.
Import Upload UploadFacts.

(** X21: [validateFile] accepts a file exactly when its declared type is
    one of the four video types and its size is at most [maxSize]; a
    file of a wrong type is refused for its type whatever its size, so the
    size rejection is given to allowed types only. *)
Theorem validateFile_accepts (file : File) :
  let allowed := f_type file = "video/mp4" \/ f_type file = "video/webm"
                 \/ f_type file = "video/ogg"
                 \/ f_type file = "video/quicktime" in
  (validateFile file = None <-> allowed /\ f_size file <= maxSize)
  /\ (validateFile file = Some size_rejection
      <-> allowed /\ f_size file > maxSize).
Proof.
  cbn zeta. rewrite <- includes_allowed. unfold validateFile.
  destruct (JsString.includes allowedTypes (f_type file)); simpl.
  - destruct (Z.gtb_spec (f_size file) maxSize); split; split;
      try (intros [_ H]); try discriminate; try lia; auto; intros; split;
      auto; lia.
  - split; split; try discriminate; intros [H _]; discriminate.
Qed.

End UploadProperties.

(** ** The transcription actions *)

Module TranscriptionProperties.

Lemma textOr_truthy (fallback : string) (x : option string) :
  JsString.truthy fallback = true ->
  JsString.truthy (textOr fallback x) = true.
Proof.
  intros H. unfold textOr, JsString.or_else. destruct x as [t|]; [| exact H].
  destruct (JsString.truthy t) eqn:E; [exact E | exact H].
Qed.

(** X22: [transcribeVideo] answers [success: true] exactly when the
    service returns a transcript whose status is not 'error'; the data
    then carry that status and a text, an empty one if the service gave
    none.  Otherwise it carries no data and an error message, which is not
    empty when the service returned a transcript in error.
    [getTranscriptionStatus] checks no status: it answers
    [success: true] for every transcript the service returns, one in
    error included. *)
Theorem transcribeVideo_outcome (service : string -> ClientOutcome)
    (videoUrl : string) :
  let r := transcribeVideo service videoUrl in
  (success r = true <->
   exists t, service videoUrl = ClientReturns t /\ tr_status t <> TError)
  /\ (forall t, service videoUrl = ClientReturns t ->
        tr_status t <> TError ->
        r = mkResult true None
              (Some (mkTranscriptData (tr_id t)
                       (match tr_text t with Some x => x | None => "" end)
                       (tr_status t) (listOr (tr_words t))
                       (listOr (tr_utterances t)))))
  /\ (success r = false -> data r = None /\ exists m, error r = Some m)
  /\ (forall t, service videoUrl = ClientReturns t ->
        tr_status t = TError ->
        exists m, r = mkResult false (Some m) None
                  /\ JsString.truthy m = true)
  /\ (forall (get : string -> ClientOutcome) (transcriptId : string) t,
        get transcriptId = ClientReturns t ->
        exists d, getTranscriptionStatus get transcriptId
                  = mkResult true None (Some d)
                  /\ td_status d = tr_status t).
Proof.
  cbn zeta. unfold transcribeVideo.
  assert (Hget : forall (get : string -> ClientOutcome)
                        (transcriptId : string) t,
             get transcriptId = ClientReturns t ->
             exists d, getTranscriptionStatus get transcriptId
                       = mkResult true None (Some d)
                       /\ td_status d = tr_status t).
  { intros get id t H. unfold getTranscriptionStatus. rewrite H.
    eexists. split; reflexivity. }
  destruct (service videoUrl) as [e|t] eqn:S.
  - repeat split; try discriminate; eauto.
    intros (t & Ht & _). discriminate.
  - assert (Htext : textOr "" (tr_text t)
                    = match tr_text t with Some x => x | None => "" end).
    { unfold textOr, JsString.or_else. destruct (tr_text t) as [x|]; auto.
      now destruct x. }
    destruct (tr_status t) eqn:St; cbn; repeat split;
      try discriminate; try congruence; eauto;
      try (intros t' [= <-] H; try congruence;
           unfold transcriptData; rewrite ?Htext, ?St; try reflexivity).
    + exists t. split; [reflexivity | congruence].
    + exists t. split; [reflexivity | congruence].
    + exists t. split; [reflexivity | congruence].
    + intros (t' & [= <-] & H). congruence.
    + eexists. split; [reflexivity |]. now apply textOr_truthy.
Qed.

End TranscriptionProperties.

(** ** Metadata documents: written, then read *)

Module DocumentFacts.

Lemma string_length_app (a s : string) :
  String.length (a ++ s) = (String.length a + String.length s)%nat.
Proof. induction a as [|c a IH]; simpl; [reflexivity | now rewrite IH]. Qed.

Lemma append_cancel (a b s : string) : a ++ s = b ++ s -> a = b.
Proof.
  revert b. induction a as [|c a IH]; intros [|c' b] H; simpl in H.
  - reflexivity.
  - apply (f_equal String.length) in H. simpl in H.
    rewrite string_length_app in H. lia.
  - apply (f_equal String.length) in H. simpl in H.
    rewrite string_length_app in H. lia.
  - injection H as -> H. now rewrite (IH b H).
Qed.

Lemma find_put_eq (name : string) (v : Video) (docs : list MetaItem) :
  find (fun mi => String.eqb (mi_name mi) name) (putDocument name v docs)
  = Some (mkMetaItem name (Some v)).
Proof.
  induction docs as [|mi rest IH]; simpl.
  - now rewrite String.eqb_refl.
  - destruct (String.eqb (mi_name mi) name) eqn:E; simpl.
    + now rewrite String.eqb_refl.
    + now rewrite E.
Qed.

Lemma find_put_ne (name other : string) (v : Video) (docs : list MetaItem) :
  other <> name ->
  find (fun mi => String.eqb (mi_name mi) other) (putDocument name v docs)
  = find (fun mi => String.eqb (mi_name mi) other) docs.
Proof.
  intros Hne. induction docs as [|mi rest IH]; simpl.
  - destruct (String.eqb_spec name other); [congruence | reflexivity].
  - destruct (String.eqb_spec (mi_name mi) name) as [E|E]; simpl.
    + rewrite E. destruct (String.eqb_spec name other); [congruence |].
      reflexivity.
    + now rewrite IH.
Qed.

Lemma load_saved (video : Video) (s : Storage) :
  loadVideoDataFromStorage (snd (saveVideoMetadataToStorage true video s))
                           (v_id video)
  = Some video.
Proof.
  unfold loadVideoDataFromStorage, saveVideoMetadataToStorage. cbn.
  now rewrite find_put_eq.
Qed.

Lemma load_other (accepted : bool) (video : Video) (s : Storage)
    (videoId : string) :
  videoId <> v_id video ->
  loadVideoDataFromStorage
    (snd (saveVideoMetadataToStorage accepted video s)) videoId
  = loadVideoDataFromStorage s videoId.
Proof.
  intros Hne. unfold loadVideoDataFromStorage, saveVideoMetadataToStorage.
  destruct accepted; [| reflexivity]. cbn.
  rewrite find_put_ne; [reflexivity |].
  intros E. apply Hne. now apply append_cancel in E.
Qed.





End DocumentFacts.

Module DocumentProperties.
Import DocumentFacts.

(** X23: a metadata document that [saveVideoMetadataToStorage] wrote
    ([true] returned) is what [loadVideoDataFromStorage] reads under the
    video's id; the documents of other ids and the video files are
    untouched; when the write is refused ([false] returned) the storage
    is unchanged. *)
Theorem saved_document_loads (accepted : bool) (video : Video)
    (s : Storage) :
  let '(ok, s') := saveVideoMetadataToStorage accepted video s in
  ok = accepted
  /\ (ok = true -> loadVideoDataFromStorage s' (v_id video) = Some video)
  /\ (ok = false -> s' = s)
  /\ (forall videoId, videoId <> v_id video ->
        loadVideoDataFromStorage s' videoId
        = loadVideoDataFromStorage s videoId)
  /\ st_videos s' = st_videos s.
Proof.
  pose proof (load_saved video s) as H1.
  pose proof (load_other accepted video s) as H2.
  unfold saveVideoMetadataToStorage in *. destruct accepted; cbn in *.
  - repeat split; auto. discriminate.
  - repeat split; auto. discriminate.
Qed.

End DocumentProperties.

(** ** The upload component *)

Module FlowFacts.
Import Upload UploadFlow.

(** The entries that do not carry the name. *)
Lemma remove_change (name : string)
    (change : UploadProgress -> UploadProgress)
    (uploads : list UploadProgress) :
  (forall u, up_fileName (change u) = up_fileName u) ->
  removeUpload name (changeUploads name change uploads)
  = removeUpload name uploads.
Proof.
  intros Hname. unfold removeUpload, changeUploads.
  induction uploads as [|u rest IH]; simpl; [reflexivity |].
  destruct (String.eqb (up_fileName u) name) eqn:E; simpl.
  - now rewrite Hname, E.
  - rewrite E. simpl. now rewrite IH.
Qed.

Lemma remove_add (name : string) (entry : UploadProgress)
    (uploads : list UploadProgress) :
  up_fileName entry = name ->
  removeUpload name (addUpload entry uploads) = removeUpload name uploads.
Proof.
  intros <-. unfold removeUpload, addUpload.
  rewrite List.filter_app. simpl. rewrite String.eqb_refl. simpl.
  apply app_nil_r.
Qed.

Lemma removed_all (name : string) (uploads : list UploadProgress) :
  Forall (fun u => up_fileName u <> name) (removeUpload name uploads).
Proof.
  unfold removeUpload. apply List.Forall_forall. intros u Hu.
  apply List.filter_In in Hu. destruct Hu as [_ Hu].
  destruct (String.eqb_spec (up_fileName u) name); [discriminate | auto].
Qed.

Lemma changed_all (name : string)
    (change : UploadProgress -> UploadProgress) (P : UploadProgress -> Prop)
    (uploads : list UploadProgress) :
  (forall u, up_fileName (change u) = up_fileName u) ->
  (forall u, P (change u)) ->
  Forall (fun u => up_fileName u = name -> P u)
         (changeUploads name change uploads).
Proof.
  intros Hname HP. unfold changeUploads.
  induction uploads as [|u rest IH]; simpl; constructor; auto.
  destruct (String.eqb_spec (up_fileName u) name) as [E|E].
  - intros _. apply HP.
  - intros E'. contradiction.
Qed.

Lemma change_change (name : string)
    (f g : UploadProgress -> UploadProgress)
    (uploads : list UploadProgress) :
  (forall u, up_fileName (g u) = up_fileName u) ->
  changeUploads name f (changeUploads name g uploads)
  = changeUploads name (fun u => f (g u)) uploads.
Proof.
  intros Hname. unfold changeUploads. rewrite map_map.
  apply map_ext. intros u.
  destruct (String.eqb (up_fileName u) name) eqn:E.
  - now rewrite Hname, E.
  - now rewrite E.
Qed.

(** The record of the table after the save and the update of the
    pipeline. *)
Lemma save_update_record (now : Z) (video : Video) (status : Status)
    (tr : Transcription) (st : State) :
  getVideoById (JsString.of_number now)
    (snd (updateVideoStatus (JsString.of_number now) status (Some tr)
            (snd (saveVideoMetadata now video st))))
  = mkResult true None
      (Some (mkVideo (JsString.of_number now) (v_name video) (v_url video)
                     (v_size video) (v_uploadedAt video) (Some tr) status)).
Proof.
  unfold saveVideoMetadata, updateVideoStatus, getVideoById. cbn.
  rewrite MapFacts.get_set_eq. cbn. rewrite MapFacts.get_set_eq.
  rewrite (TableFacts.deref_modify_eq _ _ _
             (set_status status (set_id (JsString.of_number now) video))).
  - reflexivity.
  - apply TableFacts.deref_modify_eq, EffectFacts.deref_snoc_new.
Qed.

Lemma textOr_truthy' (fallback : string) (x : option string) :
  JsString.truthy fallback = true ->
  JsString.truthy (textOr fallback x) = true.
Proof.
  intros H. unfold textOr, JsString.or_else. destruct x as [t|]; [| exact H].
  destruct (JsString.truthy t) eqn:E; [exact E | exact H].
Qed.

Lemma transcribe_ok (service : string -> ClientOutcome) (url : string)
    (t : Transcript) :
  service url = ClientReturns t -> tr_status t <> TError ->
  transcribeVideo service url
  = mkResult true None (Some (transcriptData t)).
Proof.
  intros H Hs. unfold transcribeVideo. rewrite H.
  destruct (tr_status t); congruence.
Qed.

(** A failed transcription has an error message and no data. *)
Lemma transcribe_failed (service : string -> ClientOutcome) (url : string) :
  success (transcribeVideo service url) = false ->
  data (transcribeVideo service url) = None
  /\ exists m, error (transcribeVideo service url) = Some m.
Proof.
  unfold transcribeVideo. destruct (service url) as [e|t].
  - intros _. split; [reflexivity | eauto].
  - destruct (tr_status t); try discriminate.
    intros _. split; [reflexivity | eauto].
Qed.

End FlowFacts.

Module FlowProperties.
Import Upload UploadFlow FlowFacts NameProperties.

(** X24: [uploadFile] starts an upload task only for a signed-in user, a
    file that [validateFile] accepts and a configured storage.  Signed
    out, the file gets the sign-in error whatever it is; signed in, a
    refused file gets the reason of [validateFile].  A started task adds
    an 'uploading' entry at 0 and writes to [videos/{time}_{name}], with
    [name] the name of the file: a file name from which the reconciler
    derives the id [{time}] and the name [name] (the whole file name when
    [name] is empty). *)
Theorem uploadFile_gate (user configured : bool) (now : Z) (init : Init)
    (file : File) (uploads : list UploadProgress) :
  let '(uploads', started) :=
    uploadFile user configured now init file uploads in
  (is_some started = true
   <-> user = true /\ validateFile file = None /\ configured = true
       /\ init = Started)
  /\ (user = false ->
      uploads' = (uploads ++ [failed (f_name file)
                                "You must be signed in to upload videos"])%list)
  /\ (user = true -> forall reason,
      validateFile file = Some reason ->
      uploads' = (uploads ++ [failed (f_name file) reason])%list)
  /\ (forall path, started = Some path ->
      uploads' = (uploads ++ [mkUploadProgress (f_name file) 0 Uploading
                                               None])%list
      /\ let fileName := JsString.of_number now ++ "_" ++ f_name file in
         path = "videos/" ++ fileName
         /\ (forall clock, deriveId clock fileName = JsString.of_number now)
         /\ deriveName fileName
            = if JsString.truthy (f_name file) then f_name file
              else fileName).
Proof.
  unfold uploadFile, addUpload.
  destruct user; cbn [negb].
  2:{ split; [split; [discriminate | intros [H _]; discriminate] |].
      split; [reflexivity |]. split; [discriminate |]. discriminate. }
  destruct (validateFile file) as [reason|] eqn:V.
  { split; [split; [discriminate | intros (_ & H & _); discriminate] |].
    split; [discriminate |]. split; [| discriminate].
    intros _ r E. now injection E as <-. }
  destruct configured; cbn [negb].
  2:{ split; [split; [discriminate | intros (_ & _ & H & _); discriminate] |].
      split; [discriminate |]. split; [| discriminate].
      intros _ r E. discriminate. }
  destruct init as [e|e|]; cbn [is_some].
  - split; [split; [discriminate | intros (_ & _ & _ & H); discriminate] |].
    split; [discriminate |]. split; [intros _ r E; discriminate |].
    discriminate.
  - split; [split; [discriminate | intros (_ & _ & _ & H); discriminate] |].
    split; [discriminate |]. split; [intros _ r E; discriminate |].
    discriminate.
  - split; [split; auto |].
    split; [discriminate |]. split; [intros _ r E; discriminate |].
    intros path E. injection E as <-. split; [reflexivity |].
    cbn zeta. split; [reflexivity |]. split.
    + intros clock.
      exact (proj1 (upload_name_round_trip_aux now clock (f_name file))).
    + exact (proj2 (upload_name_round_trip_aux now 0 (f_name file))).
Qed.

(** X25: an upload touches the entries of its own file name only: after
    [uploadFile], a progress or error callback, or the completion
    callback, the entries of the other file names are the same, in the
    same order; and [removeUpload] leaves no entry of the name. *)
Theorem uploads_keep_other_names (name : string)
    (uploads : list UploadProgress) :
  (forall user configured now init file,
     f_name file = name ->
     removeUpload name
       (fst (uploadFile user configured now init file uploads))
     = removeUpload name uploads)
  /\ (forall percent,
        removeUpload name (onProgress name percent uploads)
        = removeUpload name uploads)
  /\ (forall message,
        removeUpload name (onError name message uploads)
        = removeUpload name uploads)
  /\ (forall o file st s n,
        f_name file = name ->
        removeUpload name
          (w_uploads (onComplete o file (mkWorld st s uploads n)))
        = removeUpload name uploads)
  /\ Forall (fun u => up_fileName u <> name) (removeUpload name uploads).
Proof.
  split; [| split; [| split; [| split]]].
  - intros user configured now init file <-. unfold uploadFile.
    destruct user; cbn [negb fst]; [| now apply remove_add].
    destruct (validateFile file); [now apply remove_add |].
    destruct configured; cbn [negb fst]; [| now apply remove_add].
    destruct init as [e|e|]; cbn [fst].
    + now apply remove_change.
    + rewrite remove_change by reflexivity. now apply remove_add.
    + now apply remove_add.
  - intros percent. now apply remove_change.
  - intros message. now apply remove_change.
  - intros o file st s n <-. unfold onComplete. cbn [w_uploads w_state].
    destruct (o_downloadURL o) as [e|url]; cbn [w_uploads].
    + now apply remove_change.
    + destruct (saveVideoMetadata _ _ _) as [r1 st1].
      destruct (saveVideoMetadataToStorage (o_initialWrite o) _ _) as [b1 s1].
      destruct (success (transcribeVideo (o_transcribe o) url)),
               (data (transcribeVideo (o_transcribe o) url));
        try (destruct (updateVideoStatus _ _ _ _) as [r2 st2];
             destruct (saveVideoMetadataToStorage (o_finalWrite o) _ _)
               as [b2 s2]);
        cbn [w_uploads]; rewrite !remove_change by reflexivity;
        reflexivity.
  - apply removed_all.
Qed.

(** X26: when the transcription fails after the file went up, the
    pipeline leaves the video 'processing': the table holds the record
    under the id of the save, without transcription and with status
    'processing'; the document, if its first write went through, says the
    same; [onUploadComplete] is not called; only the entries of the list
    of uploads turn to 'error', with a message that is not empty. *)
Theorem failed_transcription_stays_processing (o : Outside) (file : File)
    (w : World) (url : string) :
  o_downloadURL o = inr url ->
  success (transcribeVideo (o_transcribe o) url) = false ->
  let w' := onComplete o file w in
  let videoId := JsString.of_number (o_now o) in
  getVideoById videoId (w_state w')
  = mkResult true None
      (Some (mkVideo videoId (f_name file) url (f_size file) (o_savedAt o)
                     None Processing))
  /\ (if o_initialWrite o
      then loadVideoDataFromStorage (w_storage w') videoId
           = Some (mkVideo videoId (f_name file) url (f_size file)
                           (o_initialAt o) None Processing)
      else w_storage w' = w_storage w)
  /\ w_completed w' = w_completed w
  /\ Forall (fun u => up_fileName u = f_name file ->
                      up_status u = Error
                      /\ exists m, up_error u = Some m
                                   /\ JsString.truthy m = true)
            (w_uploads w').
Proof.
  intros Hurl Hfail. cbn zeta. unfold onComplete. rewrite Hurl.
  destruct (transcribe_failed _ _ Hfail) as [Hdata [m Hm]].
  pose proof (StoreProperties.get_after_save (o_now o)
                (mkVideo "" (f_name file) url (f_size file) (o_savedAt o)
                         None Processing) (w_state w)) as Hget.
  destruct (saveVideoMetadata _ _ _) as [r1 st1]. cbn [snd] in Hget.
  pose proof (DocumentFacts.load_saved
                (mkVideo (JsString.of_number (o_now o)) (f_name file) url
                         (f_size file) (o_initialAt o) None Processing)
                (w_storage w)) as Hload.
  unfold saveVideoMetadataToStorage in *.
  rewrite Hfail; try rewrite Hdata; rewrite ?Hm.
  destruct (o_initialWrite o); cbn [snd w_state w_storage w_completed
                                    w_uploads] in *;
    (split; [exact Hget |]); (split; [auto |]); (split; [reflexivity |]);
    apply changed_all; try reflexivity;
    intros u; (split; [reflexivity |]); eexists; (split; [reflexivity |]);
    now apply textOr_truthy'.
Qed.

(** X27: when the transcription succeeds, the table holds the record
    under the id of the save with the transcript, marked 'completed' both
    ways; the document read under that id is the completed video when the
    last write went through, and still the 'processing' one when only the
    first did; [onUploadComplete] is called once and the entries of the
    file name show 'completed' at 100 percent. *)
Theorem completed_upload (o : Outside) (file : File) (w : World)
    (url : string) (t : Transcript) :
  o_downloadURL o = inr url ->
  o_transcribe o url = ClientReturns t ->
  tr_status t <> TError ->
  let w' := onComplete o file w in
  let videoId := JsString.of_number (o_now o) in
  let d := transcriptData t in
  getVideoById videoId (w_state w')
  = mkResult true None
      (Some (mkVideo videoId (f_name file) url (f_size file) (o_savedAt o)
                     (Some (withTranscript d (o_completedAt o))) Completed))
  /\ (o_finalWrite o = true ->
      loadVideoDataFromStorage (w_storage w') videoId
      = Some (mkVideo videoId (f_name file) url (f_size file) (o_finalAt o)
                      (Some (withTranscript d (o_finalCompletedAt o)))
                      Completed))
  /\ (o_finalWrite o = false -> o_initialWrite o = true ->
      loadVideoDataFromStorage (w_storage w') videoId
      = Some (mkVideo videoId (f_name file) url (f_size file)
                      (o_initialAt o) None Processing))
  /\ w_completed w' = S (w_completed w)
  /\ Forall (fun u => up_fileName u = f_name file ->
                      up_status u = Completed /\ up_progress u = 100)
            (w_uploads w').
Proof.
  intros Hurl Ht Hs. cbn zeta. unfold onComplete. rewrite Hurl.
  rewrite (transcribe_ok _ _ _ Ht Hs). cbn [success data].
  pose proof (save_update_record (o_now o)
                (mkVideo "" (f_name file) url (f_size file) (o_savedAt o)
                         None Processing) Completed
                (withTranscript (transcriptData t) (o_completedAt o))
                (w_state w)) as Hget.
  destruct (saveVideoMetadata _ _ _) as [r1 st1]. cbn [snd] in Hget.
  destruct (updateVideoStatus _ _ _ st1) as [r2 st2]. cbn [snd] in Hget.
  set (initial := mkVideo (JsString.of_number (o_now o)) (f_name file) url
                          (f_size file) (o_initialAt o) None Processing).
  set (final := mkVideo (JsString.of_number (o_now o)) (f_name file) url
                        (f_size file) (o_finalAt o)
                        (Some (withTranscript (transcriptData t)
                                              (o_finalCompletedAt o)))
                        Completed).
  pose proof (DocumentFacts.load_saved initial (w_storage w)) as Hl1.
  pose proof (fun s => DocumentFacts.load_saved final s) as Hl2.
  unfold saveVideoMetadataToStorage in *.
  destruct (o_initialWrite o), (o_finalWrite o);
    cbn [snd w_state w_storage w_completed w_uploads] in *;
    (split; [exact Hget |]);
    (split; [intros; try discriminate; try apply Hl2 |]);
    (split; [intros; try discriminate; try exact Hl1 |]);
    (split; [reflexivity |]);
    rewrite change_change by reflexivity;
    apply changed_all; try reflexivity; intros u; split; reflexivity.
Qed.

End FlowProperties.

(** ** From the upload to the list *)

Section EndToEnd.
Import Upload UploadFlow FlowFacts DocumentFacts StateFacts.

Variable Date_getTime : string -> option Z.


End EndToEnd.

(** ** The metadata route *)

Module RouteProperties.
Import MetadataRoute.

Lemma pushed (items : list MetaItem) (acc : list Listed) :
  fold_left pushItem items acc
  = (acc ++ omap (fun item =>
                    match mi_json item with
                    | Some data =>
                        Some (mkListed (mi_name item) data (has_text data))
                    | None => None
                    end) items)%list.
Proof.
  revert acc. induction items as [|item rest IH]; intros acc; cbn.
  - now rewrite app_nil_r.
  - rewrite IH. unfold pushItem.
    destruct (mi_json item); [now rewrite <- app_assoc | reflexivity].
Qed.

Lemma listed_loadable (items : list MetaItem) :
  let files :=
    omap (fun item =>
            match mi_json item with
            | Some data => Some (mkListed (mi_name item) data (has_text data))
            | None => None
            end) items in
  map ls_name files = map mi_name (List.filter loads items)
  /\ map (fun e => Some (ls_data e)) files
     = map mi_json (List.filter loads items)
  /\ Forall (fun e => ls_hasTranscription e = has_text (ls_data e)) files.
Proof.
  cbn zeta. induction items as [|item rest IH];
    [repeat split; constructor |].
  destruct IH as (I1 & I2 & I3).
  cbn [omap list_omap List.filter].
  replace (loads item) with (is_some (mi_json item)) by reflexivity.
  destruct (mi_json item) as [v|] eqn:E; cbn.
  - rewrite I1, I2, E. repeat split. constructor; [reflexivity | exact I3].
  - now repeat split.
Qed.

(** X29: the route answers 200 with the documents that load, in listing
    order, each with its name and whether it has transcript text; [count]
    is their number, so the documents that fail are skipped and counted
    out.  It answers 500 with [success: false] when the storage handle
    cannot be taken or the namespace cannot be listed: unlike [getVideos],
    it has no fallback. *)
Theorem route_lists_loadable (fb : Firebase) (listError : Thrown) :
  let a := GET fb listError in
  (an_success a = true <->
   exists s, fb = Available s /\ st_metadata_listable s = true)
  /\ (an_success a = false ->
      an_status a = 500 /\ an_files a = None
      /\ exists m, an_error a = Some m)
  /\ (forall s, fb = Available s -> st_metadata_listable s = true ->
      exists files,
        a = mkAnswer 200 true (Some (Z.of_nat (List.length files)))
                     (Some files) None
        /\ map ls_name files
           = map mi_name (List.filter loads (st_metadata s))
        /\ map (fun e => Some (ls_data e)) files
           = map mi_json (List.filter loads (st_metadata s))
        /\ Forall (fun e => ls_hasTranscription e = has_text (ls_data e))
                  files).
Proof.
  cbn zeta. unfold GET, listAll_metadata. destruct fb as [e|s].
  - split; [split; [discriminate | intros (s & H & _); discriminate] |].
    split; [intros _; repeat split; eauto | intros s H; discriminate].
  - destruct (st_metadata_listable s) eqn:L.
    + split; [split; [intros _; now exists s | reflexivity] |].
      split; [discriminate |].
      intros s' [= <-] _. rewrite pushed. cbn [app].
      eexists. split; [reflexivity |]. apply listed_loadable.
    + split; [split; [discriminate |] |].
      * intros (s' & [= <-] & H). congruence.
      * split; [intros _; repeat split; eauto |].
        intros s' [= <-] H. congruence.
Qed.

End RouteProperties.

(** ** The added statements on the sample data *)

Module Examples2.
Import Samples Samples2 Upload UploadFlow.

Lemma library_reconciles :
  reconcile library noon empty_state = Some library_loop.
Proof. reflexivity. Qed.

Lemma getVideos_fills_table_witness :
  wf_state empty_state
  /\ reconcile library noon empty_state = Some library_loop
  /\ In "1700000000400"
        (derived_ids noon 0 (resolved_files (st_videos library)))
  /\ exists v,
      getVideoById "1700000000400"
        (snd (getVideos IsoDate.getTime (Available library) noon
                        empty_state))
      = mkResult true None (Some v).
Proof.
  assert (Hin : In "1700000000400"
                   (derived_ids noon 0 (resolved_files (st_videos library))))
    by (vm_compute; tauto).
  split; [constructor |]. split; [reflexivity |]. split; [exact Hin |].
  apply (getVideos_fills_table IsoDate.getTime library noon empty_state
           library_loop "1700000000400");
    [constructor | reflexivity | exact Hin].
Defined.

Lemma getVideos_one_per_id_witness :
  wf_state empty_state
  /\ reconcile library noon empty_state = Some library_loop
  /\ exists vs,
      fst (getVideos IsoDate.getTime (Available library) noon empty_state)
      = mkResult true None (Some vs)
      /\ (List.length vs <= 2)%nat.
Proof.
  split; [constructor |]. split; [reflexivity |].
  destruct (getVideos_one_per_id IsoDate.getTime library noon empty_state
              library_loop) as (vs & E & _ & _ & _ & Hle);
    [constructor | reflexivity |].
  exists vs. split; [exact E | exact Hle].
Defined.

Lemma two_files_distinct (docs : list MetaItem) :
  distinct_ids (mkStorage docs [file_a; file_b] true true).
Proof.
  split; vm_compute.
  - repeat constructor; simpl; intuition discriminate.
  - repeat constructor.
Defined.

Lemma knows_a_wf : wf_state knows_a.
Proof. repeat constructor. Defined.

Lemma bare_file_is_synthesized_witness :
  wf_state empty_state
  /\ In resolved_a (resolved_files (st_videos library))
  /\ indexed_doc (file_cleanUrl resolved_a) (st_metadata library) = None
  /\ loadVideoDataFromStorage library (file_id resolved_a) = None
  /\ JsMap.get (file_id resolved_a) (videos empty_state) = None
  /\ exists vs,
      fst (getVideos IsoDate.getTime (Available library) noon empty_state)
      = mkResult true None (Some vs)
      /\ In (mkVideo "1700000000000" "a.mp4" url_a 10
                     "2024-05-01T10:00:00.000Z" None Completed) vs.
Proof.
  assert (Hin : In resolved_a (resolved_files (st_videos library)))
    by (vm_compute; tauto).
  split; [constructor |]. split; [exact Hin |].
  split; [reflexivity |]. split; [reflexivity |]. split; [reflexivity |].
  apply (bare_file_is_synthesized IsoDate.getTime library noon empty_state
           resolved_a);
    [constructor | exact Examples.library_distinct | reflexivity
     | reflexivity | exact Hin | reflexivity | reflexivity | reflexivity].
Defined.

Lemma file_found_by_id_witness :
  wf_state empty_state
  /\ In resolved_a (resolved_files (st_videos archive))
  /\ indexed_doc (file_cleanUrl resolved_a) (st_metadata archive) = None
  /\ loadVideoDataFromStorage archive (file_id resolved_a) = Some moved_a
  /\ exists vs,
      fst (getVideos IsoDate.getTime (Available archive) noon empty_state)
      = mkResult true None (Some vs)
      /\ In (mkVideo "1700000000000" "a.mp4" url_a 10
                     "2024-04-30T09:00:00.000Z" (Some talk) Completed) vs.
Proof.
  assert (Hin : In resolved_a (resolved_files (st_videos archive)))
    by (vm_compute; tauto).
  split; [constructor |]. split; [exact Hin |].
  split; [reflexivity |]. split; [reflexivity |].
  apply (file_found_by_id IsoDate.getTime archive noon empty_state
           resolved_a moved_a);
    [constructor | exact (two_files_distinct _) | reflexivity
     | reflexivity | exact Hin | reflexivity | reflexivity].
Defined.

Lemma file_found_by_url_witness :
  wf_state empty_state
  /\ In resolved_b (resolved_files (st_videos library))
  /\ indexed_doc (file_cleanUrl resolved_b) (st_metadata library)
     = Some meta_b
  /\ exists vs,
      fst (getVideos IsoDate.getTime (Available library) noon empty_state)
      = mkResult true None (Some vs)
      /\ In (mkVideo "1700000000400" "b.mp4" url_b 20
                     "2024-05-01T10:00:01.000Z" (Some talk) Completed) vs.
Proof.
  assert (Hin : In resolved_b (resolved_files (st_videos library)))
    by (vm_compute; tauto).
  split; [constructor |]. split; [exact Hin |]. split; [reflexivity |].
  apply (file_found_by_url IsoDate.getTime library noon empty_state
           resolved_b meta_b);
    [constructor | exact Examples.library_distinct | reflexivity
     | reflexivity | exact Hin | reflexivity |].
  intros g Hg. vm_compute in Hg.
  destruct Hg as [<- | [<- | []]]; [discriminate | reflexivity].
Defined.

Lemma file_found_in_table_witness :
  wf_state knows_a
  /\ In resolved_a (resolved_files (st_videos library))
  /\ JsMap.get (file_id resolved_a) (videos knows_a) = Some 0%nat
  /\ deref (heap knows_a) 0%nat = Some cached_a
  /\ exists vs,
      fst (getVideos IsoDate.getTime (Available library) noon knows_a)
      = mkResult true None (Some vs)
      /\ In (set_url url_a cached_a) vs.
Proof.
  assert (Hin : In resolved_a (resolved_files (st_videos library)))
    by (vm_compute; tauto).
  split; [exact knows_a_wf |]. split; [exact Hin |].
  split; [reflexivity |]. split; [reflexivity |].
  apply (file_found_in_table IsoDate.getTime library noon knows_a
           resolved_a 0%nat cached_a);
    [exact knows_a_wf | exact Examples.library_distinct | reflexivity
     | reflexivity | exact Hin | reflexivity | reflexivity | reflexivity
     | reflexivity |].
  intros g Hg. vm_compute in Hg.
  destruct Hg as [<- | [<- | []]]; [reflexivity | discriminate].
Defined.

Lemma failed_transcription_witness :
  o_downloadURL (outside broken) = inr url_b
  /\ success (transcribeVideo (o_transcribe (outside broken)) url_b) = false
  /\ getVideoById "1700000000500"
       (w_state (onComplete (outside broken) clip_b uploading_b))
     = mkResult true None
         (Some (mkVideo "1700000000500" "b.mp4" url_b 20
                        "2024-05-01T10:00:01.000Z" None Processing))
  /\ w_completed (onComplete (outside broken) clip_b uploading_b) = 0%nat.
Proof.
  split; [reflexivity |]. split; [reflexivity |].
  destruct (FlowProperties.failed_transcription_stays_processing
              (outside broken) clip_b uploading_b url_b eq_refl eq_refl)
    as (H1 & _ & H3 & _).
  split; [exact H1 | exact H3].
Defined.

Lemma completed_upload_witness :
  o_downloadURL (outside spoken) = inr url_b
  /\ o_transcribe (outside spoken) url_b = ClientReturns spoken
  /\ tr_status spoken <> TError
  /\ w_completed (onComplete (outside spoken) clip_b uploading_b) = 1%nat
  /\ Forall (fun u => up_fileName u = "b.mp4" ->
                      up_status u = Completed /\ up_progress u = 100)
            (w_uploads (onComplete (outside spoken) clip_b uploading_b)).
Proof.
  split; [reflexivity |]. split; [reflexivity |]. split; [discriminate |].
  destruct (FlowProperties.completed_upload (outside spoken) clip_b
              uploading_b url_b spoken eq_refl eq_refl)
    as (_ & _ & _ & H4 & H5); [discriminate |].
  split; [exact H4 | exact H5].
Defined.


Lemma deleted_video_comes_back_witness :
  let st := mkState [done_video] [("1700000000000", 0%nat)] in
  wf_state st /\ map_ok (videos st)
  /\ reconcile library noon (snd (deleteVideo "1700000000000" st))
     = Some library_again
  /\ getVideoById "1700000000000" (snd (deleteVideo "1700000000000" st))
     = mkResult false (Some "Video not found") None
  /\ exists v,
      getVideoById "1700000000000"
        (snd (getVideos IsoDate.getTime (Available library) noon
                (snd (deleteVideo "1700000000000" st))))
      = mkResult true None (Some v).
Proof.
  intros st.
  assert (Hwf : wf_state st) by (repeat constructor).
  assert (Hok : map_ok (videos st))
    by (unfold map_ok; vm_compute; repeat constructor; intros []).
  split; [exact Hwf |]. split; [exact Hok |]. split; [reflexivity |].
  apply (deleted_video_comes_back IsoDate.getTime library noon st
           library_again "1700000000000" Hwf Hok); [reflexivity |].
  vm_compute. tauto.
Defined.

End Examples2.
